(** * TaskPro AI: the task classifier, view model and state operations of
    [src/App.tsx], embedded in Rocq.

  The React component is read as a set of pure functions over its state:
  [stats] and [filteredTasks] are the two [useMemo] bodies, [updateTask],
  [saveTask], [toggleTask], [deleteTask] and the two label handlers are
  the state updaters, and the two [useState] initialisers together with
  the two [useEffect] bodies are the persistence layer. *)

From Stdlib Require Import ZArith List String Ascii Bool Lia.
From Stdlib Require Import Permutation Sorted DecimalString.
Import ListNotations.

Local Open Scope string_scope.
Local Open Scope Z_scope.

(** ** JavaScript strings

  A JavaScript string is modelled by a Rocq [string] holding its text in
  UTF-8, one [ascii] per byte; a character of ASCII is one byte.  Search
  for a substring is the same on the bytes as on the code units of a
  well-formed string. *)

Module JsString.

Definition code (c : ascii) : N := N_of_ascii c.

Definition isAsciiChar (c : ascii) : bool := (code c <? 128)%N.

(** Text made of characters of ASCII only *)
Fixpoint isAscii (s : string) : bool :=
  match s with
  | EmptyString => true
  | String c s' => isAsciiChar c && isAscii s'
  end.

Definition isUpper (c : ascii) : bool := ((65 <=? code c) && (code c <=? 90))%N.

(** Lower case of a character of ASCII: the letters A to Z move by 32 *)
Definition asciiLowerChar (c : ascii) : ascii :=
  if isUpper c then ascii_of_N (code c + 32) else c.

(** What [String.prototype.toLowerCase] does to a text of ASCII: on such
    a text the case mapping of Unicode is this one, character by
    character.  On other text it is not: there the mapping can depend on
    the neighbours of a letter and change the length. *)
Fixpoint asciiLower (s : string) : string :=
  match s with
  | EmptyString => EmptyString
  | String c s' => String (asciiLowerChar c) (asciiLower s')
  end.

(** [String.prototype.includes]: does [q] occur in [s] at some position *)
Fixpoint includes (s q : string) : bool :=
  String.prefix q s ||
  match s with
  | EmptyString => false
  | String _ s' => includes s' q
  end.

(** [x || d] on a string: the empty string is the only falsy one *)
Definition orElse (x d : string) : string :=
  match x with
  | EmptyString => d
  | _ => x
  end.

(** [x || d] on a possibly missing string *)
Definition optOrElse (x : option string) (d : string) : string :=
  match x with
  | Some s => orElse s d
  | None => d
  end.

End JsString.

(** ** Data model ([types.ts], as [App.tsx] uses it) *)

(** Modelled from the spec: the [Priority] enumeration of [types.ts], which
  is not among the sources; the spec lists low, medium and high. *)
Inductive Priority : Type := LOW | MEDIUM | HIGH.

Inductive ViewType : Type := list_view | agenda_view | notes_view.

Inductive TimeRange : Type := today | tomorrow | past | upcoming | all.

Module Task.
(** A task as the program builds it in [saveTask]: every field is there.
    The due date is a string, whatever it holds. *)
Record t : Type := mk
  { id : string;
    title : string;
    description : string;
    dueDate : string;
    completed : bool;
    priority : Priority;
    labelIds : list string;
    createdAt : string }.

(** [Partial<Task>]: every field may be absent *)
Record partial : Type := mkPartial
  { p_id : option string;
    p_title : option string;
    p_description : option string;
    p_dueDate : option string;
    p_completed : option bool;
    p_priority : option Priority;
    p_labelIds : option (list string);
    p_createdAt : option string }.

Definition pick {A : Type} (new : option A) (old : A) : A :=
  match new with
  | Some v => v
  | None => old
  end.

(** The object spread [{ ...t, ...updates }] *)
Definition spread (x : t) (u : partial) : t :=
  mk (pick (p_id u) (id x))
     (pick (p_title u) (title x))
     (pick (p_description u) (description x))
     (pick (p_dueDate u) (dueDate x))
     (pick (p_completed u) (completed x))
     (pick (p_priority u) (priority x))
     (pick (p_labelIds u) (labelIds x))
     (pick (p_createdAt u) (createdAt x)).
End Task.

Module Label.
Record t : Type := mk
  { id : string;
    name : string;
    color : string }.
End Label.

(** ** What [App.tsx] imports from the date helpers and from [Date]

  [isToday], [isTomorrow] and [isPast] come from [utils/dateUtils.ts] and
  read the clock; [getTime s] stands for [new Date(s).getTime()], with
  [None] for [NaN].  They are parameters of the development. *)

Class DateEnv : Type :=
{ isToday : string -> bool;
  isTomorrow : string -> bool;
  isPast : string -> bool;
  getTime : string -> option Z }.

(** ** Comparison functions and what ECMAScript asks of a sort

  A comparison function returns a number; [None] stands for [NaN]. *)

Section Comparison.
Context {A : Type}.
Variable comparefn : A -> A -> option Z.

Definition lessThan (a b : A) : Prop := exists v, comparefn a b = Some v /\ v < 0.
Definition equalTo (a b : A) : Prop := comparefn a b = Some 0.
Definition greaterThan (a b : A) : Prop := exists v, comparefn a b = Some v /\ 0 < v.
Definition atMost (a b : A) : Prop := exists v, comparefn a b = Some v /\ v <= 0.

(** A consistent comparison function for the values of [l], as
    ECMAScript defines it: it yields a number that is not [NaN], every
    value equals itself, equality is symmetric, and equality, less and
    greater are transitive. *)
Record consistent (l : list A) : Prop := mkConsistent
{ cf_number : forall a b, In a l -> In b l -> comparefn a b <> None;
  cf_refl : forall a, In a l -> equalTo a a;
  cf_sym : forall a b, In a l -> In b l -> equalTo a b -> equalTo b a;
  cf_eq_trans : forall a b c, In a l -> In b l -> In c l ->
      equalTo a b -> equalTo b c -> equalTo a c;
  cf_lt_trans : forall a b c, In a l -> In b l -> In c l ->
      lessThan a b -> lessThan b c -> lessThan a c;
  cf_gt_trans : forall a b c, In a l -> In b l -> In c l ->
      greaterThan a b -> greaterThan b c -> greaterThan a c }.

(** No value of the list compares less than one that stands before it *)
Definition ordered (out : list A) : Prop :=
forall i j a b, (i < j)%nat ->
  nth_error out i = Some a -> nth_error out j = Some b -> ~ lessThan b a.

(** The values that compare equal to [x] *)
Definition sameAs (x y : A) : bool :=
match comparefn x y with
| Some v => v =? 0
| None => false
end.

(** *** A stable insertion sort

    One way to sort that meets what is asked: an element moves behind
    another one only when the comparison says it is strictly greater;
    [NaN] is read as [+0], as [SortCompare] does. *)

Definition isAfter (x y : A) : bool :=
match comparefn x y with
| Some v => 0 <? v
| None => false
end.

Fixpoint insert (x : A) (l : list A) : list A :=
match l with
| [] => [x]
| y :: l' => if isAfter x y then y :: insert x l' else x :: l
end.

Fixpoint insertionSort (l : list A) : list A :=
match l with
| [] => []
| x :: l' => insert x (insertionSort l')
end.
End Comparison.

(** ** The built-in functions the component calls

  [toLowerCase] is [String.prototype.toLowerCase] and [sort] is
  [Array.prototype.sort] with a comparison function.  They are parameters
  of the development, known by what ECMAScript says of them.  The case
  mapping is known on text of ASCII.  The sort returns a permutation; when
  the comparison function is consistent for the values, the result is
  ordered and the values that compare equal keep their order (the sort is
  stable); when it is not, the order is left to the implementation. *)

Class Engine : Type :=
{ toLowerCase : string -> string;
  toLowerCase_ascii :
    forall s, JsString.isAscii s = true -> toLowerCase s = JsString.asciiLower s;
  sort : forall {A : Type}, (A -> A -> option Z) -> list A -> list A;
  sort_permutes :
    forall (A : Type) (comparefn : A -> A -> option Z) (l : list A),
      Permutation (sort comparefn l) l;
  sort_orders :
    forall (A : Type) (comparefn : A -> A -> option Z) (l : list A),
      consistent comparefn l -> ordered comparefn (sort comparefn l);
  sort_keeps_equals :
    forall (A : Type) (comparefn : A -> A -> option Z) (l : list A) (x : A),
      consistent comparefn l -> In x l ->
      filter (sameAs comparefn x) (sort comparefn l) = filter (sameAs comparefn x) l }.

(** ** The view model: [stats] and [filteredTasks] *)

Section ViewModel.
Context {E : Engine} {D : DateEnv}.

Record Stats : Type := mkStats
  { stats_past : nat;
    stats_today : nat;
    stats_tomorrow : nat;
    stats_upcoming : nat }.

Definition stats (tasks : list Task.t) : Stats :=
  {| stats_past :=
       List.length (filter (fun t => isPast (Task.dueDate t) && negb (Task.completed t)) tasks);
     stats_today :=
       List.length (filter (fun t => isToday (Task.dueDate t) && negb (Task.completed t)) tasks);
     stats_tomorrow :=
       List.length (filter (fun t => isTomorrow (Task.dueDate t) && negb (Task.completed t)) tasks);
     stats_upcoming :=
       List.length (filter (fun t => negb (isPast (Task.dueDate t))
                                && negb (isToday (Task.dueDate t))
                                && negb (isTomorrow (Task.dueDate t))
                                && negb (Task.completed t)) tasks) |}.

Definition matchesSearch (searchQuery : string) (task : Task.t) : bool :=
  let titleLower := toLowerCase (JsString.orElse (Task.title task) "") in
  let descLower := toLowerCase (JsString.orElse (Task.description task) "") in
  let queryLower := toLowerCase searchQuery in
  JsString.includes titleLower queryLower || JsString.includes descLower queryLower.

(** The [switch] over [activeRange], with the early [return true] for
    ['all'] folded in. *)
Definition inRange (activeRange : TimeRange) (task : Task.t) : bool :=
  match activeRange with
  | all => true
  | today => isToday (Task.dueDate task)
  | tomorrow => isTomorrow (Task.dueDate task)
  | past => isPast (Task.dueDate task)
  | upcoming => negb (isPast (Task.dueDate task))
                && negb (isToday (Task.dueDate task))
                && negb (isTomorrow (Task.dueDate task))
  end.

Definition keep (searchQuery : string) (activeRange : TimeRange) (task : Task.t) : bool :=
  if negb (matchesSearch searchQuery task) then false
  else inRange activeRange task.

(** [a.getTime() - b.getTime()]: [NaN] as soon as one side is *)
Definition numSub (x y : option Z) : option Z :=
  match x, y with
  | Some a, Some b => Some (a - b)
  | _, _ => None
  end.

Definition compareTasks (a b : Task.t) : option Z :=
  if negb (Bool.eqb (Task.completed a) (Task.completed b))
  then Some (if Task.completed a then 1 else -1)
  else numSub (getTime (Task.dueDate a)) (getTime (Task.dueDate b)).

Definition filteredTasks (tasks : list Task.t) (searchQuery : string)
           (activeRange : TimeRange) : list Task.t :=
  sort compareTasks (filter (keep searchQuery activeRange) tasks).

End ViewModel.

(** ** Calendar days and date-only strings *)

Module JsDate.

Definition isDigit (c : ascii) : bool :=
let n := N_of_ascii c in ((48 <=? n) && (n <=? 57))%N.

Definition digitVal (c : ascii) : Z := Z.of_N (N_of_ascii c) - 48.

Definition isLeap (y : Z) : bool :=
((y mod 4 =? 0) && negb (y mod 100 =? 0)) || (y mod 400 =? 0).

Definition daysInMonth (y m : Z) : Z :=
if m =? 2 then (if isLeap y then 29 else 28)
else if (m =? 4) || (m =? 6) || (m =? 9) || (m =? 11) then 30
else 31.

(** Days since 1970-01-01 of a date of the proleptic Gregorian calendar *)
Definition daysFromCivil (y m d : Z) : Z :=
let y' := if m <=? 2 then y - 1 else y in
let era := y' / 400 in
let yoe := y' - era * 400 in
let mp := if 2 <? m then m - 3 else m + 9 in
let doy := (153 * mp + 2) / 5 + d - 1 in
let doe := yoe * 365 + yoe / 4 - yoe / 100 + doy in
era * 146097 + doe - 719468.

(** The calendar day a date string of the form [YYYY-MM-DD] names, as a
    day number; [None] for every other string.  This is the format
    [getLocalDateString] and a date input produce. *)
Definition calendarDay (s : string) : option Z :=
match list_ascii_of_string s with
| [y1; y2; y3; y4; s1; m1; m2; s2; d1; d2] =>
    if forallb isDigit [y1; y2; y3; y4; m1; m2; d1; d2]
       && Ascii.eqb s1 "-" && Ascii.eqb s2 "-"
    then
      let y := digitVal y1 * 1000 + digitVal y2 * 100 + digitVal y3 * 10 + digitVal y4 in
      let m := digitVal m1 * 10 + digitVal m2 in
      let d := digitVal d1 * 10 + digitVal d2 in
      if (1 <=? m) && (m <=? 12) && (1 <=? d) && (d <=? daysInMonth y m)
      then Some (daysFromCivil y m d)
      else None
    else None
| _ => None
end.

Definition msPerDay : Z := 86400000.

(** The time value of a date-only string that names a calendar day:
    midnight UTC of that day.  [new Date(s).getTime()] is this number on
    such a string and is [NaN] on the empty string; [new Date] reads more
    forms than this one (date-times, other notations, days past the end of
    a month), about which this function says nothing: it is not [Date]. *)
Definition dateOnlyTime (s : string) : option Z :=
option_map (fun d => d * msPerDay) (calendarDay s).

End JsDate.

(** Modelled from the spec: [utils/dateUtils.ts] is not among the sources.
    The spec defines the three predicates on calendar days: today is the
    day equal to the current one, tomorrow the current one plus one, past a
    day strictly before the current one.  [now] is the current calendar day
    in the local time zone, as a day number.  A due date that names no
    calendar day satisfies none of the three. *)
Module DateUtils.

(** Modelled from the spec: [isToday] of [utils/dateUtils.ts]; the calendar
    day of the due date equals the current calendar day. *)
Definition isToday (now : Z) (dateStr : string) : bool :=
match JsDate.calendarDay dateStr with
| Some d => d =? now
| None => false
end.

(** Modelled from the spec: [isTomorrow] of [utils/dateUtils.ts]; the
    calendar day of the due date equals the current day plus one. *)
Definition isTomorrow (now : Z) (dateStr : string) : bool :=
match JsDate.calendarDay dateStr with
| Some d => d =? now + 1
| None => false
end.

(** Modelled from the spec: [isPast] of [utils/dateUtils.ts]; the calendar
    day of the due date is strictly before the current day. *)
Definition isPast (now : Z) (dateStr : string) : bool :=
match JsDate.calendarDay dateStr with
| Some d => d <? now
| None => false
end.

End DateUtils.

(** An environment for [App.tsx] when the current calendar day is [now]:
    the date helpers as the spec words them, and a time for date-only
    strings.  On a date-only string of a real day and on the empty string
    its [getTime] is what [new Date(s).getTime()] is. *)
Definition dateEnvAt (now : Z) : DateEnv :=
{| isToday := DateUtils.isToday now;
   isTomorrow := DateUtils.isTomorrow now;
   isPast := DateUtils.isPast now;
   getTime := JsDate.dateOnlyTime |}.

(** ** The state of the component and its updaters *)

(** What the handlers read from the outside world at the moment they run. *)
Record Env : Type := mkEnv
{ random36 : string;        (** [Math.random().toString(36)] *)
  localDateString : string; (** [getLocalDateString()] *)
  isoNow : string;          (** [new Date().toISOString()] *)
  dateNow : Z }.            (** [Date.now()] *)

Module App.

Record State : Type := mkState
{ tasks : list Task.t;
  labels : list Label.t;
  viewType : ViewType;
  activeRange : TimeRange;
  isTaskModalOpen : bool;
  isLabelManagerOpen : bool;
  editingTask : option Task.t;
  searchQuery : string;
  mobileMenuOpen : bool }.

Definition setTasks (f : list Task.t -> list Task.t) (st : State) : State :=
mkState (f (tasks st)) (labels st) (viewType st) (activeRange st)
        (isTaskModalOpen st) (isLabelManagerOpen st) (editingTask st)
        (searchQuery st) (mobileMenuOpen st).

Definition setLabels (ls : list Label.t) (st : State) : State :=
mkState (tasks st) ls (viewType st) (activeRange st)
        (isTaskModalOpen st) (isLabelManagerOpen st) (editingTask st)
        (searchQuery st) (mobileMenuOpen st).

Definition setIsTaskModalOpen (b : bool) (st : State) : State :=
mkState (tasks st) (labels st) (viewType st) (activeRange st)
        b (isLabelManagerOpen st) (editingTask st)
        (searchQuery st) (mobileMenuOpen st).

Definition setEditingTask (e : option Task.t) (st : State) : State :=
mkState (tasks st) (labels st) (viewType st) (activeRange st)
        (isTaskModalOpen st) (isLabelManagerOpen st) e
        (searchQuery st) (mobileMenuOpen st).

(** [prev.map(t => t.id === id ? { ...t, ...updates } : t)] *)
Definition updateList (id : string) (updates : Task.partial)
           (prev : list Task.t) : list Task.t :=
map (fun t => if String.eqb (Task.id t) id then Task.spread t updates else t) prev.

Definition updateTask (id : string) (updates : Task.partial) (st : State) : State :=
setTasks (updateList id updates) st.

(** [Math.random().toString(36).substr(2, 9)]: up to nine characters after
    the leading zero and point *)
Definition generatedTaskId (env : Env) : string :=
String.substring 2 9 (random36 env).

(** The task [saveTask] builds when nothing is being edited *)
Definition newTask (env : Env) (taskData : Task.partial) : Task.t :=
{| Task.id := generatedTaskId env;
   Task.title := JsString.optOrElse (Task.p_title taskData) "";
   Task.description := JsString.optOrElse (Task.p_description taskData) "";
   Task.dueDate := JsString.optOrElse (Task.p_dueDate taskData) (localDateString env);
   Task.completed := false;
   Task.priority := Task.pick (Task.p_priority taskData) MEDIUM;
   Task.labelIds := Task.pick (Task.p_labelIds taskData) [];
   Task.createdAt := isoNow env |}.

Definition saveTask (env : Env) (taskData : Task.partial) (st : State) : State :=
let st1 :=
  match editingTask st with
  | Some e => updateTask (Task.id e) taskData st
  | None => setTasks (fun prev => newTask env taskData :: prev) st
  end in
setEditingTask None (setIsTaskModalOpen false st1).

(** [!tasks.find(t => t.id === id)?.completed]: negating [undefined]
    gives [true] *)
Definition toggled (id : string) (ts : list Task.t) : bool :=
match find (fun t => String.eqb (Task.id t) id) ts with
| Some t => negb (Task.completed t)
| None => true
end.

Definition toggleTask (id : string) (st : State) : State :=
updateTask id
  (Task.mkPartial None None None None (Some (toggled id (tasks st))) None None None)
  st.

(** [confirmed] is the answer to the confirmation prompt *)
Definition deleteTask (confirmed : bool) (id : string) (st : State) : State :=
if confirmed
then setTasks (filter (fun t => negb (String.eqb (Task.id t) id))) st
else st.

(** The decimal numeral of an integer, as a template literal prints it *)
Definition decimal (z : Z) : string :=
DecimalString.NilZero.string_of_int (Z.to_int z).

(** The template literal [l-${Date.now()}] *)
Definition generatedLabelId (env : Env) : string :=
"l-" ++ decimal (dateNow env).

(** The label the [onAdd] handler builds *)
Definition newLabel (env : Env) (n c : string) : Label.t :=
{| Label.id := generatedLabelId env;
   Label.name := n;
   Label.color := c |}.

(** The [onAdd] handler handed to the label manager *)
Definition addLabel (env : Env) (n c : string) (st : State) : State :=
setLabels (labels st ++ [newLabel env n c]) st.

(** The [onDelete] handler handed to the label manager *)
Definition deleteLabel (id : string) (st : State) : State :=
setLabels (filter (fun l => negb (String.eqb (Label.id l) id)) (labels st)) st.

End App.

(** ** [JSON.stringify] and [JSON.parse]

    A JSON value is a tree; an object keeps its members in the order of the
    text, and a number keeps its lexeme, so that no floating point is
    involved.  Strings hold their text in UTF-8, as everywhere: a [\u]
    escape is read as the character it names, two escapes that form a
    surrogate pair as one character. *)

Module JSON.

Unset Elimination Schemes.
Inductive value : Type :=
| JNull : value
| JBool : bool -> value
| JNumber : string -> value
| JString : string -> value
| JArray : list value -> value
| JObject : list (string * value) -> value.
Set Elimination Schemes.

Definition chr (n : N) : ascii := ascii_of_N n.
Definition code (c : ascii) : N := N_of_ascii c.

Definition quoteChar : ascii := chr 34.
Definition backslash : ascii := chr 92.

Definition hexDigit (n : N) : ascii :=
if (n <? 10)%N then chr (48 + n) else chr (87 + n).

Definition hexVal (c : ascii) : option N :=
let n := code c in
if ((48 <=? n) && (n <=? 57))%N then Some (n - 48)%N
else if ((97 <=? n) && (n <=? 102))%N then Some (n - 87)%N
else if ((65 <=? n) && (n <=? 70))%N then Some (n - 55)%N
else None.

(** *** Writing *)

(** One code unit inside a string literal, as [QuoteJSONString] writes it *)
Definition escapeChar (c : ascii) : string :=
match code c with
| 8%N => String backslash "b"
| 9%N => String backslash "t"
| 10%N => String backslash "n"
| 12%N => String backslash "f"
| 13%N => String backslash "r"
| 34%N => String backslash (String quoteChar "")
| 92%N => String backslash (String backslash "")
| n => if (n <? 32)%N
       then String backslash
              (String "u" (String "0" (String "0"
                 (String (hexDigit (n / 16)) (String (hexDigit (n mod 16)) "")))))
       else String c ""
end.

(** The writers take the text that follows as an argument, so that
    [write v k] is the text of [v] followed by [k]. *)
Fixpoint escapeTo (s k : string) : string :=
match s with
| EmptyString => k
| String c s' => escapeChar c ++ escapeTo s' k
end.

Definition quoteTo (s k : string) : string :=
String quoteChar (escapeTo s (String quoteChar k)).

Section Writers.
Variable write : value -> string -> string.

Fixpoint writeElems (l : list value) (k : string) : string :=
match l with
| [] => k
| x :: l' => String "," (write x (writeElems l' k))
end.

Definition writeMember (kv : string * value) (k : string) : string :=
quoteTo (fst kv) (String ":" (write (snd kv) k)).

Fixpoint writeMembers (m : list (string * value)) (k : string) : string :=
match m with
| [] => k
| kv :: m' => String "," (writeMember kv (writeMembers m' k))
end.
End Writers.

Fixpoint write (v : value) (k : string) : string :=
match v with
| JNull => "null" ++ k
| JBool b => (if b then "true" else "false") ++ k
| JNumber n => n ++ k
| JString s => quoteTo s k
| JArray l =>
    match l with
    | [] => "[]" ++ k
    | x :: l' => String "[" (write x (writeElems write l' (String "]" k)))
    end
| JObject m =>
    match m with
    | [] => "{}" ++ k
    | kv :: m' =>
        String "{" (writeMember write kv (writeMembers write m' (String "}" k)))
    end
end.

(** [JSON.stringify(v)], without indentation *)
Definition stringify (v : value) : string := write v "".

(** *** Reading *)

Definition isWs (c : ascii) : bool :=
let n := code c in
((n =? 32) || (n =? 9) || (n =? 10) || (n =? 13))%N.

Fixpoint skipWs (s : string) : string :=
match s with
| EmptyString => EmptyString
| String c r => if isWs c then skipWs r else s
end.

Definition consChar (c : ascii) (res : option (string * string)) : option (string * string) :=
match res with
| Some (s, r) => Some (String c s, r)
| None => None
end.

Definition consText (t : string) (res : option (string * string)) : option (string * string) :=
match res with
| Some (s, r) => Some (t ++ s, r)
| None => None
end.

Definition hex4 (a b c d : ascii) : option N :=
match hexVal a, hexVal b, hexVal c, hexVal d with
| Some x, Some y, Some z, Some w => Some (((x * 16 + y) * 16 + z) * 16 + w)%N
| _, _, _, _ => None
end.

(** The bytes of a character in UTF-8.  A surrogate that stands alone is
    written in the same way, in three bytes. *)
Definition utf8 (n : N) : string :=
if (n <? 128)%N then String (chr n) ""
else if (n <? 2048)%N then
  String (chr (192 + n / 64)) (String (chr (128 + n mod 64)) "")
else if (n <? 65536)%N then
  String (chr (224 + n / 4096))
    (String (chr (128 + (n / 64) mod 64)) (String (chr (128 + n mod 64)) ""))
else
  String (chr (240 + n / 262144))
    (String (chr (128 + (n / 4096) mod 64))
       (String (chr (128 + (n / 64) mod 64)) (String (chr (128 + n mod 64)) ""))).

Definition isHighSurrogate (n : N) : bool := ((55296 <=? n) && (n <? 56320))%N.
Definition isLowSurrogate (n : N) : bool := ((56320 <=? n) && (n <? 57344))%N.

(** The low half of a surrogate pair, when the text goes on with one *)
Definition lowHalf (s : string) : option (N * string) :=
match s with
| String b (String u (String h1 (String h2 (String h3 (String h4 r))))) =>
    if ((code b =? 92) && (code u =? 117))%N
    then match hex4 h1 h2 h3 h4 with
         | Some m => if isLowSurrogate m then Some (m, r) else None
         | None => None
         end
    else None
| _ => None
end.

(** The characters of a string literal, after its opening quote, up to and
    including the closing quote *)
Fixpoint parseChars (s : string) : option (string * string) :=
match s with
| EmptyString => None
| String c r =>
    match code c with
    | 34%N => Some (EmptyString, r)
    | 92%N =>
        match r with
        | EmptyString => None
        | String e r' =>
            match code e with
            | 34%N => consChar (chr 34) (parseChars r')
            | 92%N => consChar (chr 92) (parseChars r')
            | 47%N => consChar (chr 47) (parseChars r')
            | 98%N => consChar (chr 8) (parseChars r')
            | 102%N => consChar (chr 12) (parseChars r')
            | 110%N => consChar (chr 10) (parseChars r')
            | 114%N => consChar (chr 13) (parseChars r')
            | 116%N => consChar (chr 9) (parseChars r')
            | 117%N =>
                match r' with
                | String h1 (String h2 (String h3 (String h4 r''))) =>
                    match hex4 h1 h2 h3 h4 with
                    | Some n =>
                        if isHighSurrogate n
                        then
                          match r'' with
                          | String b (String u (String l1 (String l2 (String l3 (String l4 r3))))) =>
                              match lowHalf r'' with
                              | Some (m, _) =>
                                  consText (utf8 (65536 + (n - 55296) * 1024 + (m - 56320)))
                                           (parseChars r3)
                              | None => consText (utf8 n) (parseChars r'')
                              end
                          | _ => consText (utf8 n) (parseChars r'')
                          end
                        else consText (utf8 n) (parseChars r'')
                    | None => None
                    end
                | _ => None
                end
            | _ => None
            end
        end
    | n => if (n <? 32)%N then None else consChar c (parseChars r)
    end
end.

Fixpoint dropPrefix (p s : string) : option string :=
match p, s with
| EmptyString, _ => Some s
| String a p', String b s' => if Ascii.eqb a b then dropPrefix p' s' else None
| String _ _, EmptyString => None
end.

Definition literal (lit : string) (v : value) (s : string) : option (value * string) :=
match dropPrefix lit s with
| Some r => Some (v, r)
| None => None
end.

Definition isDigit (c : ascii) : bool :=
let n := code c in ((48 <=? n) && (n <=? 57))%N.

Fixpoint spanDigits (s : string) : string * string :=
match s with
| EmptyString => (EmptyString, EmptyString)
| String c r =>
    if isDigit c
    then let (d, r') := spanDigits r in (String c d, r')
    else (EmptyString, s)
end.

Definition digits1 (s : string) : option (string * string) :=
match spanDigits s with
| (EmptyString, _) => None
| (d, r) => Some (d, r)
end.

(** The lexeme of a number: sign, integer part, fraction, exponent *)
Definition parseNumber (s : string) : option (string * string) :=
let (sign, s1) :=
  match s with
  | String "-" r => ("-", r)
  | _ => ("", s)
  end in
match
  match s1 with
  | String "0" r => Some ("0", r)
  | _ => digits1 s1
  end
with
| None => None
| Some (int, s2) =>
    match
      match s2 with
      | String "." r =>
          match digits1 r with
          | Some (d, r') => Some (String "." d, r')
          | None => None
          end
      | _ => Some ("", s2)
      end
    with
    | None => None
    | Some (frac, s3) =>
        match
          match s3 with
          | String e r =>
              if Ascii.eqb e "e" || Ascii.eqb e "E"
              then
                let (esign, r1) :=
                  match r with
                  | String "+" r0 => ("+", r0)
                  | String "-" r0 => ("-", r0)
                  | _ => ("", r)
                  end in
                match digits1 r1 with
                | Some (d, r') => Some (String e (esign ++ d), r')
                | None => None
                end
              else Some ("", s3)
          | _ => Some ("", s3)
          end
        with
        | None => None
        | Some (ex, s4) => Some (sign ++ int ++ frac ++ ex, s4)
        end
    end
end.

(** A member of an object, given the reader of values *)
Definition parseMemberWith (pv : string -> option (value * string)) (s : string)
  : option ((string * value) * string) :=
match skipWs s with
| String q r =>
    if (code q =? 34)%N
    then match parseChars r with
         | Some (key, r1) =>
             match skipWs r1 with
             | String colon r2 =>
                 if (code colon =? 58)%N
                 then match pv r2 with
                      | Some (v, r3) => Some ((key, v), r3)
                      | None => None
                      end
                 else None
             | EmptyString => None
             end
         | None => None
         end
    else None
| EmptyString => None
end.

Fixpoint parseValue (fuel : nat) (s : string) {struct fuel} : option (value * string) :=
match fuel with
| O => None
| S f =>
    match skipWs s with
    | EmptyString => None
    | String c r =>
        match code c with
        | 110%N => literal "ull" JNull r
        | 116%N => literal "rue" (JBool true) r
        | 102%N => literal "alse" (JBool false) r
        | 34%N =>
            match parseChars r with
            | Some (str, r') => Some (JString str, r')
            | None => None
            end
        | 91%N =>
            match skipWs r with
            | EmptyString => None
            | String c' r' =>
                if (code c' =? 93)%N then Some (JArray [], r')
                else
                  match parseValue f r with
                  | Some (v, r1) =>
                      match parseElems f r1 with
                      | Some (vs, r2) => Some (JArray (v :: vs), r2)
                      | None => None
                      end
                  | None => None
                  end
            end
        | 123%N =>
            match skipWs r with
            | EmptyString => None
            | String c' r' =>
                if (code c' =? 125)%N then Some (JObject [], r')
                else
                  match parseMemberWith (parseValue f) r with
                  | Some (kv, r1) =>
                      match parseMembers f r1 with
                      | Some (kvs, r2) => Some (JObject (kv :: kvs), r2)
                      | None => None
                      end
                  | None => None
                  end
            end
        | _ =>
            match parseNumber (String c r) with
            | Some (lexeme, r') => Some (JNumber lexeme, r')
            | None => None
            end
        end
    end
end

with parseElems (fuel : nat) (s : string) {struct fuel} : option (list value * string) :=
match fuel with
| O => None
| S f =>
    match skipWs s with
    | EmptyString => None
    | String c r =>
        match code c with
        | 93%N => Some ([], r)
        | 44%N =>
            match parseValue f r with
            | Some (v, r1) =>
                match parseElems f r1 with
                | Some (vs, r2) => Some (v :: vs, r2)
                | None => None
                end
            | None => None
            end
        | _ => None
        end
    end
end

with parseMembers (fuel : nat) (s : string) {struct fuel}
  : option (list (string * value) * string) :=
match fuel with
| O => None
| S f =>
    match skipWs s with
    | EmptyString => None
    | String c r =>
        match code c with
        | 125%N => Some ([], r)
        | 44%N =>
            match parseMemberWith (parseValue f) r with
            | Some (kv, r1) =>
                match parseMembers f r1 with
                | Some (kvs, r2) => Some (kv :: kvs, r2)
                | None => None
                end
            | None => None
            end
        | _ => None
        end
    end
end.

(** [JSON.parse(s)]: [None] when it throws a [SyntaxError] *)
Definition parse (s : string) : option value :=
match parseValue (S (String.length s)) s with
| Some (v, r) =>
    match skipWs r with
    | EmptyString => Some v
    | String _ _ => None
    end
| None => None
end.

(** The values without a number: strings, booleans, [null], and arrays and
    objects of such *)
Fixpoint noNumbers (v : value) : bool :=
match v with
| JNull | JBool _ | JString _ => true
| JNumber _ => false
| JArray l => forallb noNumbers l
| JObject m => forallb (fun kv => noNumbers (snd kv)) m
end.

(** The number of nodes of a value, each element and member counted once
    more; it bounds the recursion [parseValue] needs *)
Fixpoint weight (v : value) : nat :=
match v with
| JArray l => S (list_sum (map (fun x => S (weight x)) l))
| JObject m => S (list_sum (map (fun kv => S (weight (snd kv))) m))
| _ => 1
end.

(** Reading a property of an object: the last member of that name wins *)
Definition prop (k : string) (m : list (string * value)) : option value :=
fold_left (fun acc kv => if String.eqb (fst kv) k then Some (snd kv) else acc) m None.

(** The first character of the text of a value *)
Definition opens (c : ascii) : bool :=
negb (isWs c) && negb (code c =? 93)%N && negb (code c =? 125)%N.

(** What the round trip says of one value *)
Definition readsBack (v : value) : Prop :=
noNumbers v = true ->
forall fuel k, (weight v <= fuel)%nat -> parseValue fuel (write v k) = Some (v, k).

(** What the bound on the weight says of one value *)
Definition fitsText (v : value) : Prop :=
noNumbers v = true ->
forall k, (weight v + String.length k <= String.length (write v k))%nat.

End JSON.

(** ** Persistence: the two [useState] initialisers and the two effects *)

Module Persist.
Import JSON.

(** [localStorage]: a store of strings under string keys *)
Definition Storage : Type := string -> option string.

Definition getItem (k : string) (store : Storage) : option string := store k.

Definition setItem (k v : string) (store : Storage) : Storage :=
fun k' => if String.eqb k' k then Some v else store k'.

Definition emptyStorage : Storage := fun _ => None.

Definition tasksKey : string := "tasks_v4_premium".
Definition labelsKey : string := "labels_v4_premium".

(** *** Tasks and labels as JavaScript values *)

(** Modelled from the spec: the values of the [Priority] enumeration of
    [types.ts], which is not among the sources, taken to be the strings
    low, medium and high. *)
Definition priorityName (p : Priority) : string :=
match p with
| LOW => "low"
| MEDIUM => "medium"
| HIGH => "high"
end.

Definition jsonOfTask (t : Task.t) : value :=
JObject
  [ ("id", JString (Task.id t));
    ("title", JString (Task.title t));
    ("description", JString (Task.description t));
    ("dueDate", JString (Task.dueDate t));
    ("completed", JBool (Task.completed t));
    ("priority", JString (priorityName (Task.priority t)));
    ("labelIds", JArray (map JString (Task.labelIds t)));
    ("createdAt", JString (Task.createdAt t)) ].

Definition jsonOfLabel (l : Label.t) : value :=
JObject
  [ ("id", JString (Label.id l));
    ("name", JString (Label.name l));
    ("color", JString (Label.color l)) ].

Definition jsonOfTasks (ts : list Task.t) : value := JArray (map jsonOfTask ts).
Definition jsonOfLabels (ls : list Label.t) : value := JArray (map jsonOfLabel ls).

(** *** Reading a JavaScript value as a task or a label

    The program uses the parsed value as it is; these functions say which
    task list a value is, when it is one. *)

Definition asString (v : option value) : option string :=
match v with
| Some (JString s) => Some s
| _ => None
end.

Definition asBool (v : option value) : option bool :=
match v with
| Some (JBool b) => Some b
| _ => None
end.

Definition asPriority (v : option value) : option Priority :=
match asString v with
| Some s =>
    if String.eqb s "low" then Some LOW
    else if String.eqb s "medium" then Some MEDIUM
    else if String.eqb s "high" then Some HIGH
    else None
| None => None
end.

Fixpoint traverse {A B : Type} (f : A -> option B) (l : list A) : option (list B) :=
match l with
| [] => Some []
| x :: l' =>
    match f x, traverse f l' with
    | Some y, Some ys => Some (y :: ys)
    | _, _ => None
    end
end.

Definition asStrings (v : option value) : option (list string) :=
match v with
| Some (JArray l) => traverse (fun x => asString (Some x)) l
| _ => None
end.

Definition taskOfJson (v : value) : option Task.t :=
match v with
| JObject m =>
    match asString (prop "id" m), asString (prop "title" m),
          asString (prop "description" m), asString (prop "dueDate" m),
          asBool (prop "completed" m), asPriority (prop "priority" m),
          asStrings (prop "labelIds" m), asString (prop "createdAt" m)
    with
    | Some i, Some ti, Some de, Some du, Some co, Some pr, Some la, Some cr =>
        Some (Task.mk i ti de du co pr la cr)
    | _, _, _, _, _, _, _, _ => None
    end
| _ => None
end.

Definition labelOfJson (v : value) : option Label.t :=
match v with
| JObject m =>
    match asString (prop "id" m), asString (prop "name" m), asString (prop "color" m) with
    | Some i, Some n, Some c => Some (Label.mk i n c)
    | _, _, _ => None
    end
| _ => None
end.

Definition tasksOfJson (v : value) : option (list Task.t) :=
match v with
| JArray l => traverse taskOfJson l
| _ => None
end.

Definition labelsOfJson (v : value) : option (list Label.t) :=
match v with
| JArray l => traverse labelOfJson l
| _ => None
end.

(** The text the effects write, and the list a text reads as *)
Definition writeTasks (tasks : list Task.t) : string := stringify (jsonOfTasks tasks).
Definition writeLabels (labels : list Label.t) : string := stringify (jsonOfLabels labels).

Definition readTasks (text : string) : option (list Task.t) :=
match parse text with
| Some v => tasksOfJson v
| None => None
end.

Definition readLabels (text : string) : option (list Label.t) :=
match parse text with
| Some v => labelsOfJson v
| None => None
end.

(** *** The effects: the whole list is written on every change *)

Definition persistTasks (tasks : list Task.t) (store : Storage) : Storage :=
setItem tasksKey (writeTasks tasks) store.

Definition persistLabels (labels : list Label.t) (store : Storage) : Storage :=
setItem labelsKey (writeLabels labels) store.

(** *** The initialisers *)

(** [try { return body } catch (e) { return handler }], where a body that
    throws is [None] *)
Definition tryCatch {A : Type} (body : option A) (handler : A) : A :=
match body with
| Some v => v
| None => handler
end.

(** [saved ? JSON.parse(saved) : initial], under the [try]: a missing entry
    is [null] and an empty one is the empty string, both falsy *)
Definition initialState (key : string) (initial : value) (store : Storage) : value :=
tryCatch
  match getItem key store with
  | Some saved =>
      match saved with
      | EmptyString => Some initial
      | String _ _ => parse saved
      end
  | None => Some initial
  end
  initial.


Section Seed.
(** The seed data of [constants.tsx], which is not among the sources *)
Variable INITIAL_TASKS : list Task.t.
Variable INITIAL_LABELS : list Label.t.

Definition initialTasks (store : Storage) : value :=
initialState tasksKey (jsonOfTasks INITIAL_TASKS) store.

Definition initialLabels (store : Storage) : value :=
initialState labelsKey (jsonOfLabels INITIAL_LABELS) store.
End Seed.

End Persist.

(** ** The properties the specification states, in its own words *)

Module Spec.

(** Two characters that are the same letter in either case, or the same
    character: a capital of A to Z and its small letter, 32 further on *)
Definition sameLetter (x y : ascii) : Prop :=
let a := N_of_ascii x in
let b := N_of_ascii y in
(a = b
 \/ ((65 <= a)%N /\ (a <= 90)%N /\ b = (a + 32)%N)
 \/ ((65 <= b)%N /\ (b <= 90)%N /\ a = (b + 32)%N)).

(** Two texts that differ in the case of their letters only *)
Inductive sameIgnoringCase : string -> string -> Prop :=
| same_empty : sameIgnoringCase EmptyString EmptyString
| same_letter : forall x y s t,
    sameLetter x y -> sameIgnoringCase s t ->
    sameIgnoringCase (String x s) (String y t).

(** [text] contains [query] case-insensitively: some stretch of [text]
    is [query] up to case *)
Definition containsIgnoringCase (text query : string) : Prop :=
exists pre mid post, text = pre ++ mid ++ post /\ sameIgnoringCase mid query.

(** The query and the titles and descriptions of the tasks are text of
    ASCII *)
Definition asciiText (tasks : list Task.t) (query : string) : Prop :=
JsString.isAscii query = true
/\ forall t, In t tasks ->
     JsString.isAscii (Task.title t) = true
     /\ JsString.isAscii (Task.description t) = true.

Section Ranges.
Context {D : DateEnv}.

(** The due date satisfies the predicate of the selected range; the range
    ['all'] asks nothing *)
Definition satisfiesRange (r : TimeRange) (dueDate : string) : Prop :=
match r with
| today => isToday dueDate = true
| tomorrow => isTomorrow dueDate = true
| past => isPast dueDate = true
| upcoming => isPast dueDate = false /\ isToday dueDate = false /\ isTomorrow dueDate = false
| all => True
end.

Definition selected (query : string) (r : TimeRange) (t : Task.t) : Prop :=
(containsIgnoringCase (Task.title t) query
 \/ containsIgnoringCase (Task.description t) query)
/\ satisfiesRange r (Task.dueDate t).




(** How many of the four date ranges a task falls in *)
Definition rangesOf (t : Task.t) : list TimeRange :=
filter (fun r => inRange r t) [past; today; tomorrow; upcoming].

End Ranges.

(** *** The four counts *)

Definition count (p : Task.t -> bool) (l : list Task.t) : nat :=
List.length (filter p l).


Definition dueDay (t : Task.t) : option Z := JsDate.calendarDay (Task.dueDate t).




Definition undated (t : Task.t) : bool :=
match dueDay t with
| Some _ => false
| None => true
end.




(** *** Identifiers *)

Definition uniqueTaskIds (ts : list Task.t) : Prop := NoDup (map Task.id ts).
Definition uniqueLabelIds (ls : list Label.t) : Prop := NoDup (map Label.id ls).

(** The identifier [saveTask] is about to use does no harm: when a task is
    being edited the update leaves its identifier alone, and when a task is
    created the generated identifier is not in the list yet *)
Definition taskIdSafe (env : Env) (taskData : Task.partial) (st : App.State) : Prop :=
match App.editingTask st with
| Some _ => Task.p_id taskData = None
| None => ~ In (App.generatedTaskId env) (map Task.id (App.tasks st))
end.

(** The identifier the label handler generates is not in the set yet *)
Definition labelIdFresh (env : Env) (st : App.State) : Prop :=
~ In (App.generatedLabelId env) (map Label.id (App.labels st)).

(** *** Partial updates *)

(** [new] has the fields of [old] wherever [u] lists none *)
Definition keepsUnlisted (u : Task.partial) (old new : Task.t) : Prop :=
(Task.p_id u = None -> Task.id new = Task.id old)
/\ (Task.p_title u = None -> Task.title new = Task.title old)
/\ (Task.p_description u = None -> Task.description new = Task.description old)
/\ (Task.p_dueDate u = None -> Task.dueDate new = Task.dueDate old)
/\ (Task.p_completed u = None -> Task.completed new = Task.completed old)
/\ (Task.p_priority u = None -> Task.priority new = Task.priority old)
/\ (Task.p_labelIds u = None -> Task.labelIds new = Task.labelIds old)
/\ (Task.p_createdAt u = None -> Task.createdAt new = Task.createdAt old).

(** The task at every position of [ts'] is the one of [ts], changed or not;
    a changed one has the given identifier in [ts] *)
Definition changesOnly (id : string) (u : Task.partial) (ts ts' : list Task.t) : Prop :=
forall i t, nth_error ts i = Some t ->
  exists t', nth_error ts' i = Some t'
    /\ keepsUnlisted u t t'
    /\ (Task.id t <> id -> t' = t).

End Spec.

(** *** Tasks the comparison function of [filteredTasks] can compare *)

Section TaskOrder.
Context {D : DateEnv}.


End TaskOrder.



(** ** Sample data *)

Module Sample.

(** 2024-01-01 as a day number *)
Definition jan1 : Z := 19723.

Definition task (i due : string) (done : bool) : Task.t :=
{| Task.id := i;
   Task.title := "Task " ++ i;
   Task.description := "";
   Task.dueDate := due;
   Task.completed := done;
   Task.priority := MEDIUM;
   Task.labelIds := ["l-1"];
   Task.createdAt := "2024-01-01T08:00:00.000Z" |}.

(** Three open tasks, the middle one without a date *)
Definition withUndated : list Task.t :=
[ task "a" "2024-01-02" false; task "b" "" false; task "c" "2024-01-01" false ].

(** Three dated tasks, the first one completed *)
Definition datedTasks : list Task.t :=
[ task "a" "2024-01-01" true; task "b" "2024-01-03" false; task "c" "2024-01-02" false ].

(** An open task whose due date names no calendar day *)
Definition someday : Task.t := task "s" "someday" false.


Definition label (i n : string) : Label.t :=
{| Label.id := i; Label.name := n; Label.color := "#6366f1" |}.

(** A state with one task, one label and no task being edited *)
Definition state : App.State :=
{| App.tasks := [task "abcdefghi" "2024-01-01" false];
   App.labels := [label "l-1" "Work"];
   App.viewType := list_view;
   App.activeRange := today;
   App.isTaskModalOpen := true;
   App.isLabelManagerOpen := false;
   App.editingTask := None;
   App.searchQuery := "";
   App.mobileMenuOpen := false |}.

(** The list view of every range, with a query in capitals *)
Definition searching : App.State :=
{| App.tasks := datedTasks;
   App.labels := [label "l-1" "Work"];
   App.viewType := list_view;
   App.activeRange := all;
   App.isTaskModalOpen := false;
   App.isLabelManagerOpen := false;
   App.editingTask := None;
   App.searchQuery := "TASK";
   App.mobileMenuOpen := false |}.

(** The random number prints as the identifier of the task of [state] *)
Definition envRepeating : Env :=
{| random36 := "0.abcdefghijk";
   localDateString := "2024-01-01";
   isoNow := "2024-01-01T09:00:00.000Z";
   dateNow := 1704099600000 |}.

Definition envFresh : Env :=
{| random36 := "0.zyxwvutsrqp";
   localDateString := "2024-01-01";
   isoNow := "2024-01-01T09:00:00.000Z";
   dateNow := 1704099600000 |}.

Definition titled (s : string) : Task.partial :=
Task.mkPartial None (Some s) None None None None None None.

End Sample.

(** ** The handlers of the component as events *)

Module Nav.
Import App.

Definition setViewType (v : ViewType) (st : State) : State :=
mkState (tasks st) (labels st) v (activeRange st)
        (isTaskModalOpen st) (isLabelManagerOpen st) (editingTask st)
        (searchQuery st) (mobileMenuOpen st).

Definition setActiveRange (r : TimeRange) (st : State) : State :=
mkState (tasks st) (labels st) (viewType st) r
        (isTaskModalOpen st) (isLabelManagerOpen st) (editingTask st)
        (searchQuery st) (mobileMenuOpen st).

Definition setIsLabelManagerOpen (b : bool) (st : State) : State :=
mkState (tasks st) (labels st) (viewType st) (activeRange st)
        (isTaskModalOpen st) b (editingTask st)
        (searchQuery st) (mobileMenuOpen st).

Definition setMobileMenuOpen (b : bool) (st : State) : State :=
mkState (tasks st) (labels st) (viewType st) (activeRange st)
        (isTaskModalOpen st) (isLabelManagerOpen st) (editingTask st)
        (searchQuery st) b.

(** The state of the first render: the two lists come from the
    initialisers, the rest is as the [useState] calls give it *)
Definition start (ts : list Task.t) (ls : list Label.t) : State :=
{| tasks := ts;
   labels := ls;
   viewType := list_view;
   activeRange := today;
   isTaskModalOpen := false;
   isLabelManagerOpen := false;
   editingTask := None;
   searchQuery := "";
   mobileMenuOpen := false |}.

(** One constructor for each handler the JSX attaches.  The handlers given
    to the child components carry the arguments the child calls them with. *)
Inductive Event : Type :=
| CloseOverlay                                   (** the mobile overlay *)
| SelectPast                                     (** sidebar items *)
| SelectToday
| SelectTomorrow
| SelectUpcoming
| SelectNotes
| OpenLabelManager
| OpenMobileMenu
| ShowList                                       (** the two view buttons *)
| ShowAgenda
| NewTask                                        (** the button and the empty state *)
| UpdateTask (id : string) (updates : Task.partial)   (** notes view *)
| ToggleTask (id : string)
| DeleteTask (confirmed : bool) (id : string)
| EditTask (t : Task.t)
| SaveTask (env : Env) (taskData : Task.partial)  (** task modal *)
| CloseTaskModal
| AddLabel (env : Env) (n c : string)             (** label manager *)
| DeleteLabel (id : string)
| CloseLabelManager.

Definition handle (ev : Event) (st : State) : State :=
match ev with
| CloseOverlay => setMobileMenuOpen false st
| SelectPast => setMobileMenuOpen false (setViewType list_view (setActiveRange past st))
| SelectToday => setMobileMenuOpen false (setViewType list_view (setActiveRange today st))
| SelectTomorrow =>
    setMobileMenuOpen false (setViewType list_view (setActiveRange tomorrow st))
| SelectUpcoming =>
    setMobileMenuOpen false (setViewType agenda_view (setActiveRange upcoming st))
| SelectNotes => setMobileMenuOpen false (setActiveRange all (setViewType notes_view st))
| OpenLabelManager => setIsLabelManagerOpen true st
| OpenMobileMenu => setMobileMenuOpen true st
| ShowList => setViewType list_view st
| ShowAgenda => setViewType agenda_view st
| NewTask => setIsTaskModalOpen true st
| UpdateTask id updates => updateTask id updates st
| ToggleTask id => toggleTask id st
| DeleteTask confirmed id => deleteTask confirmed id st
| EditTask t => setIsTaskModalOpen true (setEditingTask (Some t) st)
| SaveTask env taskData => saveTask env taskData st
| CloseTaskModal => setEditingTask None (setIsTaskModalOpen false st)
| AddLabel env n c => addLabel env n c st
| DeleteLabel id => deleteLabel id st
| CloseLabelManager => setIsLabelManagerOpen false st
end.

(** The states the component can be in: the first one, and those an event
    leads to *)
Inductive reachable : State -> Prop :=
| reach_start : forall ts ls, reachable (start ts ls)
| reach_handle : forall ev st, reachable st -> reachable (handle ev st).

Definition run (evs : list Event) (st : State) : State :=
fold_left (fun s ev => handle ev s) evs st.

(** *** What the main area shows *)

Inductive Content : Type :=
| NotesView (shown : list Task.t)
| TaskItems (shown : list Task.t)
| EmptyState
| AgendaView (shown : list Task.t).

Section Render.
Context {E : Engine} {D : DateEnv}.

Definition content (st : State) : Content :=
let shown := filteredTasks (tasks st) (searchQuery st) (activeRange st) in
match viewType st with
| notes_view => NotesView shown
| list_view => if (0 <? List.length shown)%nat then TaskItems shown else EmptyState
| agenda_view => AgendaView shown
end.

(** The sidebar items and the count each one is given; the notes item is
    given none *)
Inductive Item : Type := PastItem | TodayItem | TomorrowItem | UpcomingItem | NotesItem.

Definition itemCount (i : Item) (st : State) : option nat :=
match i with
| PastItem => Some (stats_past (stats (tasks st)))
| TodayItem => Some (stats_today (stats (tasks st)))
| TomorrowItem => Some (stats_tomorrow (stats (tasks st)))
| UpcomingItem => Some (stats_upcoming (stats (tasks st)))
| NotesItem => None
end.

Definition itemRange (i : Item) : option TimeRange :=
match i with
| PastItem => Some past
| TodayItem => Some today
| TomorrowItem => Some tomorrow
| UpcomingItem => Some upcoming
| NotesItem => None
end.

End Render.

(** [count !== undefined && count > 0] in [SidebarItem]: the number the
    badge shows, if it is shown *)
Definition badge (count : option nat) : option nat :=
match count with
| Some n => if (0 <? n)%nat then Some n else None
| None => None
end.

End Nav.

(** ** The effects and the first render together *)

Module Boot.
Import Persist.

(** The two effects after a render: both lists are written *)
Definition persist (st : App.State) (store : Storage) : Storage :=
persistLabels (App.labels st) (persistTasks (App.tasks st) store).

(** The state of the first render over a store, when the two initial
    values are a task list and a label list *)
Definition restart (seedTasks : list Task.t) (seedLabels : list Label.t)
           (store : Storage) : option App.State :=
match tasksOfJson (initialTasks seedTasks store),
      labelsOfJson (initialLabels seedLabels store) with
| Some ts, Some ls => Some (Nav.start ts ls)
| _, _ => None
end.

End Boot.

(** ** The entry point, [src/index.tsx] *)

Module Index.
Import Persist.





Section Seed.
Variable INITIAL_TASKS : list Task.t.
Variable INITIAL_LABELS : list Label.t.

End Seed.

End Index.

(** ** A case mapping for text of ASCII and Greek letters

  What [String.prototype.toLowerCase] does to text made of characters of
  ASCII and of the Greek letters Α to Ω and α to ω: a capital becomes its
  small letter, and a capital sigma becomes the final form ς when a cased
  letter stands before it and none after it, the characters that case
  mapping looks through set aside.  Other characters are outside what this
  function is meant for; it leaves them as they are. *)

Module Reference.
Import JsString.

Definition isLetter (c : ascii) : bool :=
let n := code c in
(((65 <=? n) && (n <=? 90)) || ((97 <=? n) && (n <=? 122)))%N.

(** The characters of ASCII that case mapping looks through: the
    apostrophe, the full stop, the colon, the circumflex and the grave
    accent *)
Definition isIgnorable (c : ascii) : bool :=
let n := code c in
((n =? 39) || (n =? 46) || (n =? 58) || (n =? 94) || (n =? 96))%N.

(** The two bytes of a Greek capital Α to Ω *)
Definition isGreekCapital (lead second : ascii) : bool :=
let b := code second in
((code lead =? 206) && (145 <=? b) && (b <=? 169) && negb (b =? 162))%N.

(** The two bytes of a Greek small letter α to ω *)
Definition isGreekSmall (lead second : ascii) : bool :=
let b := code second in
(((code lead =? 206) && (177 <=? b) && (b <=? 191))
 || ((code lead =? 207) && (128 <=? b) && (b <=? 137)))%N.

(** Does a cased letter follow, after characters that are looked through *)
Fixpoint casedFollows (s : string) : bool :=
match s with
| EmptyString => false
| String c r =>
    if isAsciiChar c
    then (if isIgnorable c then casedFollows r else isLetter c)
    else match r with
         | String d _ => isGreekCapital c d || isGreekSmall c d
         | EmptyString => false
         end
end.

Definition pair (a b : N) : string := String (ascii_of_N a) (String (ascii_of_N b) "").

(** The small letter of a Greek capital whose second byte is [d] *)
Definition greekSmall (afterCased : bool) (d : ascii) (rest : string) : string :=
let b := code d in
if (b =? 163)%N
then (if afterCased && negb (casedFollows rest) then pair 207 130 else pair 207 131)
else if (b <? 160)%N then pair 206 (b + 32)
else pair 207 (b - 32).

(** [afterCased] says whether a cased letter stands before, characters that
    are looked through set aside *)
Fixpoint lowerFrom (afterCased : bool) (s : string) : string :=
match s with
| EmptyString => EmptyString
| String c r =>
    if isAsciiChar c
    then String (asciiLowerChar c)
                (lowerFrom (if isIgnorable c then afterCased else isLetter c) r)
    else match r with
         | String d r' =>
             if isGreekCapital c d then greekSmall afterCased d r' ++ lowerFrom true r'
             else if isGreekSmall c d then String c (String d (lowerFrom true r'))
             else String c (lowerFrom false r)
         | EmptyString => String c EmptyString
         end
end.

Definition lower (s : string) : string := lowerFrom false s.

End Reference.

(** ** Further properties, in words of their own *)

Module Props.

Section Keys.
Context {D : DateEnv}.



(** No due date is claimed by two of the three date helpers *)
Definition exclusiveHelpers : Prop :=
forall d,
  (isPast d = true -> isToday d = false /\ isTomorrow d = false)
  /\ (isToday d = true -> isTomorrow d = false).

End Keys.

Definition isOpen (t : Task.t) : bool := negb (Task.completed t).

(** The number a comparison yields with its arguments swapped *)
Definition negated (v : option Z) : option Z := option_map Z.opp v.

(** The update [{ completed: b }] *)
Definition setCompleted (b : bool) : Task.partial :=
Task.mkPartial None None None None (Some b) None None None.

Definition hasId (id : string) (t : Task.t) : bool := String.eqb (Task.id t) id.

(** Two stores that answer alike *)
Definition sameStore (a b : Persist.Storage) : Prop :=
forall k, Persist.getItem k a = Persist.getItem k b.

End Props.

(** ** More sample data *)

Module Scenario.

(** The sample state with its task opened for editing *)
Definition editing : App.State :=
Nav.handle (Nav.EditTask (Sample.task "abcdefghi" "2024-01-01" false)) Sample.state.

(** A walk through the component from its first render *)
Definition walk : list Nav.Event :=
[ Nav.OpenMobileMenu; Nav.SelectNotes; Nav.NewTask;
  Nav.SaveTask Sample.envFresh (Sample.titled "Write report");
  Nav.ToggleTask "zyxwvutsr" ].

Definition afterWalk : App.State :=
Nav.run walk (Nav.start Sample.datedTasks [Sample.label "l-1" "Work"]).

End Scenario.

(** * Facts about strings *)

Module JsStringFacts.
Import JsString.

Lemma prefix_iff (q s : string) :
  String.prefix q s = true <-> exists post, s = q ++ post.
Proof.
revert s; induction q as [|c q IH]; intros s.
- split; [intros _; now exists s | intros _; now destruct s].
- destruct s as [|d s]; simpl.
  + split; [discriminate | intros [post H]; discriminate].
  + destruct (ascii_dec c d) as [->|Hne].
    * rewrite IH. split; intros [post H]; exists post.
      -- now rewrite H.
      -- now injection H.
    * split; [discriminate | intros [post H]; injection H; congruence].
Qed.

Lemma includes_iff (s q : string) :
  includes s q = true <-> exists pre post, s = pre ++ q ++ post.
Proof.
induction s as [|c s IH].
- cbn [includes]. rewrite orb_false_r, prefix_iff. split.
  + intros [post H]. now exists "", post.
  + intros [pre [post H]]. destruct pre; [now exists post | discriminate].
- cbn [includes]. rewrite orb_true_iff, prefix_iff, IH. split.
  + intros [[post H] | [pre [post H]]].
    * now exists "", post.
    * exists (String c pre), post. simpl. now rewrite H.
  + intros [pre [post H]]. destruct pre as [|d pre].
    * left. now exists post.
    * right. exists pre, post. simpl in H. now injection H.
Qed.

Lemma asciiLower_app (a b : string) :
  asciiLower (a ++ b) = asciiLower a ++ asciiLower b.
Proof. induction a as [|c a IH]; simpl; [reflexivity | now rewrite IH]. Qed.

(** A split of the lowered text comes from a split of the text *)
Lemma asciiLower_split (s x y : string) :
  asciiLower s = x ++ y ->
  exists a b, s = a ++ b /\ asciiLower a = x /\ asciiLower b = y.
Proof.
revert s; induction x as [|c x IH]; intros s H.
- exists "", s. auto.
- destruct s as [|d s]; [discriminate|].
  simpl in H. injection H as Hc Hs.
  destruct (IH _ Hs) as [a [b [-> [Ha Hb]]]].
  exists (String d a), b. simpl. now rewrite Hc, Ha, Hb.
Qed.

Lemma code_bound (c : ascii) : (code c < 256)%N.
Proof. apply N_ascii_bounded. Qed.

Lemma code_asciiLowerChar (c : ascii) :
  code (asciiLowerChar c) = if isUpper c then (code c + 32)%N else code c.
Proof.
unfold asciiLowerChar. destruct (isUpper c) eqn:E; [|reflexivity].
unfold isUpper in E. apply andb_true_iff in E as [_ E]. apply N.leb_le in E.
unfold code at 1. apply N_ascii_embedding. lia.
Qed.

Lemma code_inj (x y : ascii) : code x = code y -> x = y.
Proof.
intros H. rewrite <- (ascii_N_embedding x), <- (ascii_N_embedding y).
unfold code in H. now rewrite H.
Qed.

(** Two characters have the same lower case exactly when they are the same
    letter in either case *)
Lemma asciiLowerChar_same (x y : ascii) :
  asciiLowerChar x = asciiLowerChar y <-> Spec.sameLetter x y.
Proof.
unfold Spec.sameLetter. fold (code x). fold (code y). cbv zeta.
split.
- intros H. apply (f_equal code) in H. rewrite !code_asciiLowerChar in H.
  unfold isUpper in H.
  destruct (N.leb_spec 65 (code x)), (N.leb_spec (code x) 90),
    (N.leb_spec 65 (code y)), (N.leb_spec (code y) 90); simpl in H; lia.
- intros H. apply code_inj. rewrite !code_asciiLowerChar. unfold isUpper.
  destruct (N.leb_spec 65 (code x)), (N.leb_spec (code x) 90),
    (N.leb_spec 65 (code y)), (N.leb_spec (code y) 90); simpl; lia.
Qed.

Lemma asciiLower_same (a b : string) :
  asciiLower a = asciiLower b <-> Spec.sameIgnoringCase a b.
Proof.
split.
- revert b. induction a as [|x a IH]; intros [|y b] H; try discriminate.
  + constructor.
  + simpl in H. injection H as Hc Hs.
    constructor; [now apply asciiLowerChar_same | now apply IH].
- induction 1 as [|x y s t Hxy _ IH]; [reflexivity|].
  simpl. apply asciiLowerChar_same in Hxy. now rewrite Hxy, IH.
Qed.

(** The test of the program on text of ASCII is containment up to case *)
Lemma includes_asciiLower_iff (text query : string) :
  includes (asciiLower text) (asciiLower query) = true
  <-> Spec.containsIgnoringCase text query.
Proof.
rewrite includes_iff. unfold Spec.containsIgnoringCase. split.
- intros [x [y H]].
  destruct (asciiLower_split _ _ _ H) as [pre [rest [-> [Hpre Hrest]]]].
  destruct (asciiLower_split _ _ _ Hrest) as [mid [post [-> [Hmid Hpost]]]].
  exists pre, mid, post. split; [reflexivity|]. now apply asciiLower_same.
- intros [pre [mid [post [-> H]]]]. apply asciiLower_same in H.
  exists (asciiLower pre), (asciiLower post).
  now rewrite !asciiLower_app, H.
Qed.

Lemma isAscii_app (a b : string) :
  isAscii (a ++ b) = isAscii a && isAscii b.
Proof.
induction a as [|c a IH]; simpl; [reflexivity|].
now rewrite IH, andb_assoc.
Qed.

Lemma orElse_empty (s : string) : orElse s "" = s.
Proof. now destruct s. Qed.

Lemma includes_empty (s : string) : includes s "" = true.
Proof. destruct s; reflexivity. Qed.

Section WithEngine.
Context {E : Engine}.

Lemma toLowerCase_empty : toLowerCase "" = "".
Proof. now rewrite toLowerCase_ascii. Qed.

End WithEngine.

End JsStringFacts.

(** * Facts about comparison functions and the insertion sort *)

Module SortFacts.

Section Generic.
Context {A : Type}.
Variable comparefn : A -> A -> option Z.

Lemma insert_perm (x : A) (l : list A) : Permutation (insert comparefn x l) (x :: l).
Proof.
induction l as [|y l IH]; simpl.
- apply Permutation_refl.
- destruct (isAfter comparefn x y).
  + eapply perm_trans; [apply perm_skip, IH | apply perm_swap].
  + apply Permutation_refl.
Qed.

Lemma insertionSort_perm (l : list A) : Permutation (insertionSort comparefn l) l.
Proof.
induction l as [|x l IH]; simpl.
- apply perm_nil.
- eapply perm_trans; [apply insert_perm | now apply perm_skip].
Qed.

(** An order the comparison function agrees with on the elements that
    satisfy [P] *)
Variable P : A -> Prop.
Variable le : A -> A -> Prop.
Hypothesis le_trans :
  forall x y z, P x -> P y -> P z -> le x y -> le y z -> le x z.
Hypothesis stays_le :
  forall x y, P x -> P y -> isAfter comparefn x y = false -> le x y.
Hypothesis moves_le :
  forall x y, P x -> P y -> isAfter comparefn x y = true -> le y x.

Lemma insert_sorted (x : A) (l : list A) :
  P x -> Forall P l -> StronglySorted le l ->
  StronglySorted le (insert comparefn x l).
Proof.
intros Px. induction l as [|y l IH]; intros HP Hs; simpl.
- constructor; constructor.
- apply Forall_cons_iff in HP as [Py HPl].
  apply StronglySorted_inv in Hs as [Hsl Hy].
  destruct (isAfter comparefn x y) eqn:E.
  + constructor; [now apply IH|].
    eapply Permutation_Forall; [apply Permutation_sym, insert_perm|].
    constructor; [now apply moves_le | exact Hy].
  + constructor; [now constructor|].
    constructor; [now apply stays_le|].
    rewrite Forall_forall in *. intros z Hz.
    apply (le_trans x y z); auto.
Qed.

Lemma insertionSort_sorted (l : list A) :
  Forall P l -> StronglySorted le (insertionSort comparefn l).
Proof.
induction l as [|x l IH]; intros HP; simpl.
- constructor.
- apply Forall_cons_iff in HP as [Px HPl].
  apply insert_sorted; auto.
  eapply Permutation_Forall; [apply Permutation_sym, insertionSort_perm | exact HPl].
Qed.

End Generic.

Lemma StronglySorted_nth_error {A : Type} (R : A -> A -> Prop) (l : list A) :
  StronglySorted R l ->
  forall i j a b, (i < j)%nat ->
    nth_error l i = Some a -> nth_error l j = Some b -> R a b.
Proof.
induction 1 as [|x l Hs IH Hx]; intros i j a b Hij Hi Hj.
- destruct i; discriminate.
- destruct j as [|j]; [lia|]. simpl in Hj.
  destruct i as [|i]; simpl in Hi.
  + injection Hi as <-. rewrite Forall_forall in Hx.
    apply Hx. eapply nth_error_In; eauto.
  + apply (IH i j); auto. lia.
Qed.

(** ** What follows from consistency *)

Section Consistent.
Context {A : Type}.
Variable comparefn : A -> A -> option Z.
Variable l : list A.
Hypothesis Hc : consistent comparefn l.

Lemma compare_number (a b : A) :
  In a l -> In b l -> exists v, comparefn a b = Some v.
Proof.
intros Ha Hb. destruct (comparefn a b) as [v|] eqn:E; [now exists v|].
now elim (cf_number _ _ Hc a b Ha Hb).
Qed.

Lemma greater_swaps (a b : A) :
  In a l -> In b l -> greaterThan comparefn a b -> lessThan comparefn b a.
Proof.
intros Ha Hb Hgt. destruct (compare_number b a Hb Ha) as [w Hw].
exists w. split; [exact Hw|].
destruct (Z.lt_trichotomy w 0) as [Hlt|[Heq|Hgt']]; [exact Hlt| |].
- subst w. pose proof (cf_sym _ _ Hc b a Hb Ha Hw) as Hs.
  destruct Hgt as [v [Hv Hpos]]. unfold equalTo in Hs. rewrite Hv in Hs.
  injection Hs as ->. lia.
- assert (Hba : greaterThan comparefn b a) by (exists w; auto).
  pose proof (cf_gt_trans _ _ Hc a b a Ha Hb Ha Hgt Hba) as [v [Hv Hpos]].
  pose proof (cf_refl _ _ Hc a Ha) as Hr. unfold equalTo in Hr.
  rewrite Hv in Hr. injection Hr as ->. lia.
Qed.

Lemma less_swaps (a b : A) :
  In a l -> In b l -> lessThan comparefn a b -> greaterThan comparefn b a.
Proof.
intros Ha Hb Hlt. destruct (compare_number b a Hb Ha) as [w Hw].
exists w. split; [exact Hw|].
destruct (Z.lt_trichotomy w 0) as [Hlt'|[Heq|Hgt]]; [| |exact Hgt].
- assert (Hba : lessThan comparefn b a) by (exists w; auto).
  pose proof (cf_lt_trans _ _ Hc a b a Ha Hb Ha Hlt Hba) as [v [Hv Hneg]].
  pose proof (cf_refl _ _ Hc a Ha) as Hr. unfold equalTo in Hr.
  rewrite Hv in Hr. injection Hr as ->. lia.
- subst w. pose proof (cf_sym _ _ Hc b a Hb Ha Hw) as Hs.
  destruct Hlt as [v [Hv Hneg]]. unfold equalTo in Hs. rewrite Hv in Hs.
  injection Hs as ->. lia.
Qed.

Lemma atMost_cases (a b : A) :
  atMost comparefn a b -> lessThan comparefn a b \/ equalTo comparefn a b.
Proof.
intros [v [Hv Hle]]. destruct (Z.eq_dec v 0) as [->|Hne].
- now right.
- left. exists v. split; [exact Hv | lia].
Qed.

Lemma not_greater (a b : A) :
  In a l -> In b l -> ~ greaterThan comparefn a b -> atMost comparefn a b.
Proof.
intros Ha Hb Hn. destruct (compare_number a b Ha Hb) as [v Hv].
exists v. split; [exact Hv|].
destruct (Z.le_gt_cases v 0) as [H|H]; [exact H|].
elim Hn. exists v. split; [exact Hv | lia].
Qed.

Lemma atMost_trans (a b c : A) :
  In a l -> In b l -> In c l -> atMost comparefn a b -> atMost comparefn b c -> atMost comparefn a c.
Proof.
intros Ha Hb Hc' Hab Hbc. apply not_greater; auto. intros Hgt.
pose proof (greater_swaps a c Ha Hc' Hgt) as Hca.
destruct (atMost_cases a b Hab) as [Hlt1|Heq1];
  destruct (atMost_cases b c Hbc) as [Hlt2|Heq2].
- pose proof (cf_lt_trans _ _ Hc a b c Ha Hb Hc' Hlt1 Hlt2) as [v [Hv Hneg]].
  destruct Hgt as [w [Hw Hpos]]. rewrite Hv in Hw. injection Hw as ->. lia.
- pose proof (cf_lt_trans _ _ Hc c a b Hc' Ha Hb Hca Hlt1) as [v [Hv Hneg]].
  pose proof (cf_sym _ _ Hc b c Hb Hc' Heq2) as Hs. unfold equalTo in Hs.
  rewrite Hv in Hs. injection Hs as ->. lia.
- pose proof (cf_lt_trans _ _ Hc b c a Hb Hc' Ha Hlt2 Hca) as [v [Hv Hneg]].
  pose proof (cf_sym _ _ Hc a b Ha Hb Heq1) as Hs. unfold equalTo in Hs.
  rewrite Hv in Hs. injection Hs as ->. lia.
- pose proof (cf_eq_trans _ _ Hc a b c Ha Hb Hc' Heq1 Heq2) as He.
  destruct Hgt as [w [Hw Hpos]]. unfold equalTo in He. rewrite Hw in He.
  injection He as ->. lia.
Qed.

Lemma isAfter_greater (a b : A) :
  isAfter comparefn a b = true <-> greaterThan comparefn a b.
Proof.
unfold isAfter, greaterThan. destruct (comparefn a b) as [v|].
- rewrite Z.ltb_lt. split.
  + intros H. now exists v.
  + intros [w [Hw H]]. now injection Hw as ->.
- split; [discriminate | intros [w [Hw _]]; discriminate].
Qed.

Lemma atMost_not_less (a b : A) :
  In a l -> In b l -> atMost comparefn a b -> ~ lessThan comparefn b a.
Proof.
intros Ha Hb [v [Hv Hle]] Hlt.
destruct (less_swaps b a Hb Ha Hlt) as [w [Hw Hpos]].
rewrite Hv in Hw. injection Hw as ->. lia.
Qed.

(** The insertion sort orders the values *)
Lemma insertionSort_orders : ordered comparefn (insertionSort comparefn l).
Proof.
assert (Hs : StronglySorted (atMost comparefn) (insertionSort comparefn l)).
{ apply (insertionSort_sorted comparefn (fun a => In a l) (atMost comparefn)).
  - intros x y z. apply atMost_trans.
  - intros x y Hx Hy H. apply not_greater; auto.
    intros Hgt. apply isAfter_greater in Hgt. congruence.
  - intros x y Hx Hy H. apply isAfter_greater in H.
    destruct (greater_swaps x y Hx Hy H) as [v [Hv Hneg]].
    exists v. split; [exact Hv | lia].
  - now apply Forall_forall. }
intros i j a b Hij Hi Hj.
assert (Ha : In a l).
{ apply (Permutation_in a (insertionSort_perm comparefn l)).
  eapply nth_error_In; eauto. }
assert (Hb : In b l).
{ apply (Permutation_in b (insertionSort_perm comparefn l)).
  eapply nth_error_In; eauto. }
apply atMost_not_less; auto.
exact (StronglySorted_nth_error (atMost comparefn) _ Hs i j a b Hij Hi Hj).
Qed.

Lemma sameAs_equal (x y : A) : sameAs comparefn x y = true <-> equalTo comparefn x y.
Proof.
unfold sameAs, equalTo. destruct (comparefn x y) as [v|].
- rewrite Z.eqb_eq. split; [now intros -> | now intros [= ->]].
- split; discriminate.
Qed.

Lemma insert_other (p : A -> bool) (z : A) (m : list A) :
  p z = false -> filter p (insert comparefn z m) = filter p m.
Proof.
intros Hz. induction m as [|y m IH]; simpl.
- now rewrite Hz.
- destruct (isAfter comparefn z y); simpl.
  + now rewrite IH.
  + now rewrite Hz.
Qed.

Lemma insert_same (x z : A) (m : list A) :
  In x l -> In z l -> incl m l ->
  sameAs comparefn x z = true ->
  filter (sameAs comparefn x) (insert comparefn z m)
  = z :: filter (sameAs comparefn x) m.
Proof.
intros Hx Hz Hm Hxz. induction m as [|y m IH]; simpl.
- now rewrite Hxz.
- assert (Hy : In y l) by (apply Hm; now left).
  assert (Hm' : incl m l) by (intros w Hw; apply Hm; now right).
  destruct (isAfter comparefn z y) eqn:E; simpl.
  + destruct (sameAs comparefn x y) eqn:Hxy; [|now apply IH].
    exfalso. apply isAfter_greater in E.
    apply sameAs_equal in Hxz, Hxy.
    pose proof (cf_sym _ _ Hc x z Hx Hz Hxz) as Hzx.
    pose proof (cf_eq_trans _ _ Hc z x y Hz Hx Hy Hzx Hxy) as Hzy.
    destruct E as [v [Hv Hpos]]. unfold equalTo in Hzy. rewrite Hv in Hzy.
    injection Hzy as ->. lia.
  + now rewrite Hxz.
Qed.

End Consistent.

(** The insertion sort keeps the order of the values that compare equal *)
Lemma insertionSort_keeps_equals {A : Type} (comparefn : A -> A -> option Z)
      (l : list A) (x : A) :
  consistent comparefn l -> In x l ->
  filter (sameAs comparefn x) (insertionSort comparefn l)
  = filter (sameAs comparefn x) l.
Proof.
intros Hc Hx.
assert (H : forall m, incl m l ->
  filter (sameAs comparefn x) (insertionSort comparefn m)
  = filter (sameAs comparefn x) m).
{ induction m as [|z m IH]; intros Hm; simpl; [reflexivity|].
  assert (Hz : In z l) by (apply Hm; now left).
  assert (Hm' : incl m l) by (intros w Hw; apply Hm; now right).
  destruct (sameAs comparefn x z) eqn:Hxz.
  - rewrite (insert_same comparefn l Hc x z); auto.
    + now rewrite IH.
    + intros w Hw. apply Hm'.
      now apply (Permutation_in w (insertionSort_perm comparefn m)).
  - rewrite insert_other by exact Hxz. now apply IH. }
apply H. apply incl_refl.
Qed.

(** ** The comparison function of [filteredTasks] *)

Section Tasks.
Context {D : DateEnv}.



End Tasks.

End SortFacts.

(** * An engine to compute with *)

Module EngineFacts.
Import JsString Reference SortFacts.

Lemma lowerFrom_ascii (afterCased : bool) (s : string) :
  isAscii s = true -> lowerFrom afterCased s = asciiLower s.
Proof.
revert afterCased. induction s as [|c s IH]; intros b H; [reflexivity|].
simpl in H. apply andb_true_iff in H as [Hc Hs].
cbn [lowerFrom asciiLower]. rewrite Hc. now rewrite IH.
Qed.

End EngineFacts.

(** The insertion sort and the case mapping for ASCII and Greek text make
    an engine: they meet what is asked of the two built-in functions.  The
    samples are computed with it. *)
Definition sampleEngine : Engine :=
{| toLowerCase := Reference.lower;
   toLowerCase_ascii := EngineFacts.lowerFrom_ascii false;
   sort := @insertionSort;
   sort_permutes := @SortFacts.insertionSort_perm;
   sort_orders := @SortFacts.insertionSort_orders;
   sort_keeps_equals := @SortFacts.insertionSort_keeps_equals |}.

(** * The view model *)

Module ViewModelFacts.
Import JsString JsStringFacts SortFacts.


Section WithEnv.
Context {E : Engine} {D : DateEnv}.

Lemma matchesSearch_ascii (q : string) (t : Task.t) :
  isAscii q = true ->
  isAscii (Task.title t) = true -> isAscii (Task.description t) = true ->
  (matchesSearch q t = true <->
   Spec.containsIgnoringCase (Task.title t) q
   \/ Spec.containsIgnoringCase (Task.description t) q).
Proof.
intros Hq Ht Hd. unfold matchesSearch. cbv zeta.
rewrite !orElse_empty, !toLowerCase_ascii by assumption.
now rewrite orb_true_iff, !includes_asciiLower_iff.
Qed.

Lemma inRange_iff (r : TimeRange) (t : Task.t) :
  inRange r t = true <-> Spec.satisfiesRange r (Task.dueDate t).
Proof.
destruct r; simpl; try tauto.
rewrite !andb_true_iff, !negb_true_iff. tauto.
Qed.

Lemma keep_ascii (q : string) (r : TimeRange) (t : Task.t) :
  isAscii q = true ->
  isAscii (Task.title t) = true -> isAscii (Task.description t) = true ->
  (keep q r t = true <-> Spec.selected q r t).
Proof.
intros Hq Ht Hd. unfold keep, Spec.selected.
rewrite <- (matchesSearch_ascii q t Hq Ht Hd), <- inRange_iff.
destruct (matchesSearch q t); simpl; intuition discriminate.
Qed.


(** Whatever the date helpers answer, a task is in one range at least, and
    in no other when it is in upcoming *)
Lemma some_range (t : Task.t) : Spec.rangesOf t <> [].
Proof.
unfold Spec.rangesOf. simpl.
destruct (isPast (Task.dueDate t)), (isToday (Task.dueDate t)),
  (isTomorrow (Task.dueDate t)); discriminate.
Qed.

Lemma upcoming_alone (t : Task.t) :
  inRange upcoming t = true -> Spec.rangesOf t = [upcoming].
Proof.
unfold Spec.rangesOf. simpl.
destruct (isPast (Task.dueDate t)), (isToday (Task.dueDate t)),
  (isTomorrow (Task.dueDate t)); simpl; intros H; try discriminate; reflexivity.
Qed.

Lemma filteredTasks_perm (tasks : list Task.t) (q : string) (r : TimeRange) :
  Permutation (filteredTasks tasks q r) (filter (keep q r) tasks).
Proof. apply sort_permutes. Qed.


(** C9: with the empty query the search test accepts every task, and the
    filtered list is the sorted list of the tasks of the active range. *)
Theorem filteredTasks_empty_query (tasks : list Task.t) (r : TimeRange) :
  (forall t, matchesSearch "" t = true)
  /\ filteredTasks tasks "" r = sort compareTasks (filter (inRange r) tasks).
Proof.
assert (H : forall t, matchesSearch "" t = true).
{ intros t. unfold matchesSearch. cbv zeta.
  rewrite toLowerCase_empty. now rewrite includes_empty. }
split; [exact H|].
unfold filteredTasks. f_equal. apply filter_ext.
intros t. unfold keep. now rewrite H.
Qed.


End WithEnv.





Example completed_task_last :
  map Task.id (filteredTasks (E := sampleEngine) (D := dateEnvAt Sample.jan1)
                 Sample.datedTasks "TASK" all)
  = ["c"; "b"; "a"].
Proof. reflexivity. Qed.

Example search_in_title :
  map Task.id (filteredTasks (E := sampleEngine) (D := dateEnvAt Sample.jan1)
                 Sample.datedTasks "sk B" all)
  = ["b"].
Proof. reflexivity. Qed.

Example final_sigma :
  Reference.lower "ΑΣ" = "ας" /\ Reference.lower "ΑΣΑ" = "ασα".
Proof. split; reflexivity. Qed.

End ViewModelFacts.

(** * Date ranges and counts, with the date helpers of the specification *)

Module RangeFacts.

Section At.
Variable now : Z.
Let D : DateEnv := dateEnvAt now.
Existing Instance D.

(** C4: at a fixed current day, every task falls in exactly one of the four
    ranges past, today, tomorrow and upcoming. *)
Theorem exactly_one_range (t : Task.t) :
  exists r, Spec.rangesOf t = [r].
Proof.
unfold Spec.rangesOf. simpl.
unfold DateUtils.isPast, DateUtils.isToday, DateUtils.isTomorrow.
destruct (JsDate.calendarDay (Task.dueDate t)) as [d|]; simpl; [|now exists upcoming].
destruct (Z.ltb_spec d now), (Z.eqb_spec d now), (Z.eqb_spec d (now + 1));
  simpl; try lia;
  [now exists past | now exists today | now exists tomorrow | now exists upcoming].
Qed.

End At.





(** The examples of the specification, with 2024-01-02 as the current day *)
Example due_the_day_before :
  Spec.rangesOf (D := dateEnvAt (Sample.jan1 + 1)) (Sample.task "e" "2024-01-01" false)
  = [past].
Proof. reflexivity. Qed.

Example due_the_same_day :
  Spec.rangesOf (D := dateEnvAt (Sample.jan1 + 1)) (Sample.task "e" "2024-01-02" false)
  = [today].
Proof. reflexivity. Qed.

Example due_the_next_day :
  Spec.rangesOf (D := dateEnvAt (Sample.jan1 + 1)) (Sample.task "e" "2024-01-03" false)
  = [tomorrow].
Proof. reflexivity. Qed.

Example due_any_later_day :
  Spec.rangesOf (D := dateEnvAt (Sample.jan1 + 1)) (Sample.task "e" "2024-03-01" false)
  = [upcoming].
Proof. reflexivity. Qed.

Example due_no_day :
  Spec.rangesOf (D := dateEnvAt (Sample.jan1 + 1)) Sample.someday = [upcoming].
Proof. reflexivity. Qed.

End RangeFacts.

(** * The state updaters *)

Module AppFacts.

Lemma spread_keepsUnlisted (t : Task.t) (u : Task.partial) :
  Spec.keepsUnlisted u t (Task.spread t u).
Proof.
unfold Spec.keepsUnlisted, Task.spread. simpl.
repeat split; intros ->; reflexivity.
Qed.

Lemma keepsUnlisted_refl (u : Task.partial) (t : Task.t) : Spec.keepsUnlisted u t t.
Proof. unfold Spec.keepsUnlisted. tauto. Qed.

Lemma updateList_nth (id : string) (u : Task.partial) (ts : list Task.t) (i : nat) :
  nth_error (App.updateList id u ts) i
  = option_map (fun t => if String.eqb (Task.id t) id then Task.spread t u else t)
               (nth_error ts i).
Proof. unfold App.updateList. apply nth_error_map. Qed.

Lemma updateList_absent (id : string) (u : Task.partial) (ts : list Task.t) :
  (forall t, In t ts -> Task.id t <> id) -> App.updateList id u ts = ts.
Proof.
intros H. unfold App.updateList.
rewrite <- (map_id ts) at 2. apply map_ext_in.
intros t Ht. apply H in Ht. apply String.eqb_neq in Ht. now rewrite Ht.
Qed.

Lemma updateList_ids (id : string) (u : Task.partial) (ts : list Task.t) :
  Task.p_id u = None ->
  map Task.id (App.updateList id u ts) = map Task.id ts.
Proof.
intros Hu. unfold App.updateList. rewrite map_map. apply map_ext.
intros t. destruct (String.eqb (Task.id t) id); [|reflexivity].
unfold Task.spread. simpl. now rewrite Hu.
Qed.

Lemma updateList_changesOnly (id : string) (u : Task.partial) (ts : list Task.t) :
  Spec.changesOnly id u ts (App.updateList id u ts).
Proof.
intros i t Hi. rewrite updateList_nth, Hi. simpl.
destruct (String.eqb_spec (Task.id t) id) as [He|Hne].
- eexists; split; [reflexivity|]. split; [apply spread_keepsUnlisted | congruence].
- eexists; split; [reflexivity|]. split; [apply keepsUnlisted_refl | reflexivity].
Qed.

(** [toggleTask] is such an update, of the completion flag alone: a task of
    another identifier stays, and the one found first has its flag negated *)
Lemma toggleTask_flips (id : string) (st : App.State) (t : Task.t) :
  find (fun x => String.eqb (Task.id x) id) (App.tasks st) = Some t ->
  In (Task.spread t (Task.mkPartial None None None None
                       (Some (negb (Task.completed t))) None None None))
     (App.tasks (App.toggleTask id st)).
Proof.
intros Hf. unfold App.toggleTask, App.toggled. rewrite Hf. simpl.
apply find_some in Hf as [Hin Hid].
unfold App.updateList. apply in_map_iff. exists t. now rewrite Hid.
Qed.

(** C10: [updateTask] keeps the length of the task list and the position of
    every task; the task at a position differs from the former one only if
    that one has the given identifier, and then only in the fields the
    update lists; when no task has the identifier the list is the same. *)
Theorem updateTask_frame (id : string) (updates : Task.partial) (st : App.State) :
  List.length (App.tasks (App.updateTask id updates st)) = List.length (App.tasks st)
  /\ Spec.changesOnly id updates (App.tasks st) (App.tasks (App.updateTask id updates st))
  /\ ((forall t, In t (App.tasks st) -> Task.id t <> id) ->
      App.tasks (App.updateTask id updates st) = App.tasks st).
Proof.
simpl. split; [|split].
- unfold App.updateList. apply length_map.
- apply updateList_changesOnly.
- apply updateList_absent.
Qed.

(** C8: deleting a label leaves every task as it is and removes from the
    label set the labels of that identifier and no other; a task that
    lists the identifier still lists it, and no label answers to it. *)
Theorem deleteLabel_frame (id : string) (st : App.State) :
  App.tasks (App.deleteLabel id st) = App.tasks st
  /\ (forall l, In l (App.labels (App.deleteLabel id st))
                <-> In l (App.labels st) /\ Label.id l <> id)
  /\ (forall t, In t (App.tasks st) -> In id (Task.labelIds t) ->
        In t (App.tasks (App.deleteLabel id st))
        /\ ~ In id (map Label.id (App.labels (App.deleteLabel id st)))).
Proof.
simpl. split; [reflexivity|]. split.
- intros l. rewrite filter_In, negb_true_iff, String.eqb_neq. tauto.
- intros t Ht _. split; [exact Ht|].
  rewrite in_map_iff. intros [l [Hid Hl]].
  apply filter_In in Hl as [_ Hl].
  apply negb_true_iff, String.eqb_neq in Hl. contradiction.
Qed.

(** C5, as amended: [saveTask] keeps the task identifiers unique when the
    task it creates gets an identifier that is not in the list yet (or, when
    it edits, the update does not touch the identifier), and the label
    handler keeps the label identifiers unique when the identifier it
    generates is not in the set yet. *)
Theorem fresh_ids_stay_unique
  (env : Env) (taskData : Task.partial) (n c : string) (st : App.State) :
  Spec.uniqueTaskIds (App.tasks st) ->
  Spec.uniqueLabelIds (App.labels st) ->
  Spec.taskIdSafe env taskData st ->
  Spec.labelIdFresh env st ->
  Spec.uniqueTaskIds (App.tasks (App.saveTask env taskData st))
  /\ Spec.uniqueLabelIds (App.labels (App.addLabel env n c st)).
Proof.
unfold Spec.uniqueTaskIds, Spec.uniqueLabelIds, Spec.taskIdSafe, Spec.labelIdFresh.
intros Ht Hl Hsafe Hfresh. split.
- unfold App.saveTask. destruct (App.editingTask st) as [e|]; simpl.
  + now rewrite updateList_ids.
  + constructor; assumption.
- simpl. rewrite map_app. simpl.
  eapply Permutation_NoDup; [apply Permutation_cons_append|].
  constructor; assumption.
Qed.

(** C5: the generated identifier can be one the list already has. *)
Lemma saveTask_repeats_id :
  ~ (forall env taskData n c st,
       Spec.uniqueTaskIds (App.tasks st) ->
       Spec.uniqueLabelIds (App.labels st) ->
       Spec.uniqueTaskIds (App.tasks (App.saveTask env taskData st))
       /\ Spec.uniqueLabelIds (App.labels (App.addLabel env n c st))).
Proof.
intros H.
destruct (H Sample.envRepeating (Sample.titled "again") "Home" "#10b981" Sample.state)
  as [Hu _].
- repeat constructor. simpl. tauto.
- repeat constructor. simpl. tauto.
- vm_compute in Hu.
  apply NoDup_cons_iff in Hu as [Hin _]. apply Hin. now left.
Qed.

Lemma fresh_ids_stay_unique_witness :
  Spec.uniqueTaskIds (App.tasks Sample.state)
  /\ Spec.uniqueLabelIds (App.labels Sample.state)
  /\ Spec.taskIdSafe Sample.envFresh (Sample.titled "new") Sample.state
  /\ Spec.labelIdFresh Sample.envFresh Sample.state
  /\ Spec.uniqueTaskIds
       (App.tasks (App.saveTask Sample.envFresh (Sample.titled "new") Sample.state))
  /\ Spec.uniqueLabelIds
       (App.labels (App.addLabel Sample.envFresh "Home" "#10b981" Sample.state)).
Proof.
assert (H1 : Spec.uniqueTaskIds (App.tasks Sample.state)).
{ repeat constructor. simpl. tauto. }
assert (H2 : Spec.uniqueLabelIds (App.labels Sample.state)).
{ repeat constructor. simpl. tauto. }
assert (H3 : Spec.taskIdSafe Sample.envFresh (Sample.titled "new") Sample.state).
{ vm_compute. intros [H|[]]. discriminate H. }
assert (H4 : Spec.labelIdFresh Sample.envFresh Sample.state).
{ vm_compute. intros [H|[]]. discriminate H. }
repeat split; try assumption;
  apply (fresh_ids_stay_unique Sample.envFresh (Sample.titled "new")
           "Home" "#10b981" Sample.state H1 H2 H3 H4).
Defined.

End AppFacts.

(** * [JSON.parse] reads back what [JSON.stringify] writes *)

Module JsonFacts.
Import JSON.

Lemma value_induction (P : value -> Prop) :
  P JNull ->
  (forall b, P (JBool b)) ->
  (forall n, P (JNumber n)) ->
  (forall s, P (JString s)) ->
  (forall l, Forall P l -> P (JArray l)) ->
  (forall m, Forall (fun kv => P (snd kv)) m -> P (JObject m)) ->
  forall v, P v.
Proof.
intros Hnull Hbool Hnum Hstr Harr Hobj.
fix IH 1. intros [|b|n|s|l|m].
- exact Hnull.
- apply Hbool.
- apply Hnum.
- apply Hstr.
- apply Harr. induction l as [|x l IHl]; constructor; [apply IH | exact IHl].
- apply Hobj. induction m as [|kv m IHm]; constructor; [apply IH | exact IHm].
Qed.

Lemma parseChars_escapeTo (s k : string) :
  parseChars (escapeTo s (String quoteChar k)) = Some (s, k).
Proof.
induction s as [|c s IH].
- reflexivity.
- remember (String quoteChar k) as K eqn:HK. clear HK.
  destruct c as [[] [] [] [] [] [] [] []]; cbn; rewrite IH; reflexivity.
Qed.


Lemma parseValue_string (f : nat) (s k : string) :
  parseValue (S f) (quoteTo s k) = Some (JString s, k).
Proof.
unfold quoteTo. cbn [parseValue skipWs].
change (isWs quoteChar) with false. cbv iota.
change (code quoteChar) with 34%N. cbv iota.
now rewrite parseChars_escapeTo.
Qed.

Lemma write_opens (v : value) (k : string) :
  noNumbers v = true ->
  exists c r, write v k = String c r /\ opens c = true.
Proof.
destruct v as [|[]|n|s|[|x l]|[|kv m]]; simpl; intros H;
  try discriminate; eexists; eexists; split; try reflexivity; reflexivity.
Qed.

Lemma parseValue_array (f : nat) (s : string) (c : ascii) (r : string) :
  s = String c r -> opens c = true ->
  parseValue (S f) (String "[" s)
  = match parseValue f s with
    | Some (v, r1) =>
        match parseElems f r1 with
        | Some (vs, r2) => Some (JArray (v :: vs), r2)
        | None => None
        end
    | None => None
    end.
Proof.
intros Hs Hc. unfold opens in Hc.
apply andb_true_iff in Hc as [Hc H125]. apply andb_true_iff in Hc as [Hws H93].
apply negb_true_iff in Hws, H93.
cbn [parseValue skipWs]. change (isWs "[") with false. cbv iota.
change (code "[") with 91%N. cbv iota.
rewrite Hs at 1. cbn [skipWs]. rewrite Hws, H93. reflexivity.
Qed.

Lemma parseElems_end (f : nat) (k : string) :
  parseElems (S f) (String "]" k) = Some ([], k).
Proof. reflexivity. Qed.

Lemma parseElems_more (f : nat) (s : string) :
  parseElems (S f) (String "," s)
  = match parseValue f s with
    | Some (v, r1) =>
        match parseElems f r1 with
        | Some (vs, r2) => Some (v :: vs, r2)
        | None => None
        end
    | None => None
    end.
Proof. reflexivity. Qed.


Lemma parseMember_written (pv : string -> option (value * string))
      (key : string) (x : value) (k : string) :
  pv (write x k) = Some (x, k) ->
  parseMemberWith pv (writeMember write (key, x) k) = Some ((key, x), k).
Proof.
intros Hpv. unfold parseMemberWith, writeMember, quoteTo. cbn [fst snd skipWs].
change (isWs quoteChar) with false. cbv iota.
change (code quoteChar =? 34)%N with true. cbv iota.
rewrite parseChars_escapeTo. cbn [skipWs].
change (isWs ":") with false. cbv iota.
change (code ":" =? 58)%N with true. cbv iota.
now rewrite Hpv.
Qed.

Lemma parseValue_object (f : nat) (kv : string * value) (k : string) :
  parseValue (S f) (String "{" (writeMember write kv k))
  = match parseMemberWith (parseValue f) (writeMember write kv k) with
    | Some (kv', r1) =>
        match parseMembers f r1 with
        | Some (kvs, r2) => Some (JObject (kv' :: kvs), r2)
        | None => None
        end
    | None => None
    end.
Proof.
cbn [parseValue skipWs]. change (isWs "{") with false. cbv iota.
change (code "{") with 123%N. cbv iota.
unfold writeMember at 1, quoteTo at 1. cbn [skipWs].
change (isWs quoteChar) with false. cbv iota.
change (code quoteChar =? 125)%N with false. cbv iota.
reflexivity.
Qed.

Lemma parseMembers_end (f : nat) (k : string) :
  parseMembers (S f) (String "}" k) = Some ([], k).
Proof. reflexivity. Qed.

Lemma parseMembers_more (f : nat) (s : string) :
  parseMembers (S f) (String "," s)
  = match parseMemberWith (parseValue f) s with
    | Some (kv, r1) =>
        match parseMembers f r1 with
        | Some (kvs, r2) => Some (kv :: kvs, r2)
        | None => None
        end
    | None => None
    end.
Proof. reflexivity. Qed.

Lemma elems_read_back (l : list value) :
  Forall readsBack l -> forallb noNumbers l = true ->
  forall fuel k, (list_sum (map (fun x => S (weight x)) l) < fuel)%nat ->
    parseElems fuel (writeElems write l (String "]" k)) = Some (l, k).
Proof.
induction 1 as [|x l Hx Hl IH]; intros Hn fuel k Hf.
- destruct fuel as [|f]; [lia|]. apply parseElems_end.
- simpl in Hn. apply andb_true_iff in Hn as [Hnx Hnl].
  simpl in Hf. destruct fuel as [|f]; [lia|].
  cbn [writeElems]. rewrite parseElems_more.
  rewrite (Hx Hnx) by lia. rewrite (IH Hnl) by lia. reflexivity.
Qed.

Lemma members_read_back (m : list (string * value)) :
  Forall (fun kv => readsBack (snd kv)) m ->
  forallb (fun kv => noNumbers (snd kv)) m = true ->
  forall fuel k, (list_sum (map (fun kv => S (weight (snd kv))) m) < fuel)%nat ->
    parseMembers fuel (writeMembers write m (String "}" k)) = Some (m, k).
Proof.
induction 1 as [|[key x] m Hx Hm IH]; intros Hn fuel k Hf.
- destruct fuel as [|f]; [lia|]. apply parseMembers_end.
- simpl in Hn. apply andb_true_iff in Hn as [Hnx Hnm].
  simpl in Hf. destruct fuel as [|f]; [lia|].
  cbn [writeMembers]. rewrite parseMembers_more.
  rewrite parseMember_written; [| apply (Hx Hnx); simpl; lia].
  rewrite (IH Hnm) by lia. reflexivity.
Qed.

Lemma value_reads_back (v : value) : readsBack v.
Proof.
induction v as [|b|n|s|l IH|m IH] using value_induction;
  intros Hn fuel k Hf; (destruct fuel as [|f]; [simpl in Hf; lia|]).
- reflexivity.
- destruct b; reflexivity.
- discriminate.
- apply parseValue_string.
- destruct l as [|x l]; [reflexivity|].
  apply Forall_cons_iff in IH as [Hx Hl].
  cbn [noNumbers forallb] in Hn. apply andb_true_iff in Hn as [Hnx Hnl].
  simpl in Hf.
  cbn [write].
  destruct (write_opens x (writeElems write l (String "]" k)) Hnx) as [c [r [Hw Hc]]].
  rewrite (parseValue_array f _ c r Hw Hc).
  rewrite (Hx Hnx) by lia.
  rewrite (elems_read_back l Hl Hnl) by lia. reflexivity.
- destruct m as [|[key x] m]; [reflexivity|].
  apply Forall_cons_iff in IH as [Hx Hm].
  cbn [noNumbers forallb snd] in Hn. apply andb_true_iff in Hn as [Hnx Hnm].
  simpl in Hf.
  cbn [write].
  rewrite parseValue_object.
  rewrite parseMember_written; [| apply (Hx Hnx); simpl in *; lia].
  rewrite (members_read_back m Hm Hnm) by lia. reflexivity.
Qed.


Lemma length_append (a b : string) :
  String.length (a ++ b) = (String.length a + String.length b)%nat.
Proof. induction a as [|c a IH]; simpl; [reflexivity | now rewrite IH]. Qed.

Lemma length_escapeTo (s k : string) :
  (String.length k <= String.length (escapeTo s k))%nat.
Proof.
induction s as [|c s IH]; simpl; [lia|].
rewrite length_append. lia.
Qed.

Lemma length_quoteTo (s k : string) :
  (2 + String.length k <= String.length (quoteTo s k))%nat.
Proof.
unfold quoteTo. simpl.
pose proof (length_escapeTo s (String quoteChar k)) as H. simpl in H. lia.
Qed.

Lemma value_fitsText (v : value) : fitsText v.
Proof.
induction v as [|b|n|s|l IH|m IH] using value_induction; intros Hn k.
- simpl. lia.
- destruct b; simpl; lia.
- discriminate.
- pose proof (length_quoteTo s k). cbn [weight write]. lia.
- destruct l as [|x l]; [simpl; lia|].
  apply Forall_cons_iff in IH as [Hx Hl].
  simpl in Hn. apply andb_true_iff in Hn as [Hnx Hnl].
  assert (Hrest : forall k',
    (list_sum (map (fun x => S (weight x)) l) + String.length k'
     <= String.length (writeElems write l k'))%nat).
  { clear Hx Hnx. induction Hl as [|y l Hy Hl IHl]; intros k'; simpl; [lia|].
    simpl in Hnl. apply andb_true_iff in Hnl as [Hny Hnl].
    specialize (IHl Hnl k'). specialize (Hy Hny (writeElems write l k')). lia. }
  specialize (Hrest (String "]" k)).
  specialize (Hx Hnx (writeElems write l (String "]" k))).
  simpl in *. lia.
- destruct m as [|[key x] m]; [simpl; lia|].
  apply Forall_cons_iff in IH as [Hx Hm].
  simpl in Hn. apply andb_true_iff in Hn as [Hnx Hnm].
  assert (Hmember : forall key' y k', fitsText y -> noNumbers y = true ->
    (S (weight y) + String.length k'
     <= String.length (writeMember write (key', y) k'))%nat).
  { intros key' y k' Hy Hny. unfold writeMember. cbn [fst snd].
    pose proof (length_quoteTo key' (String ":" (write y k'))) as H1.
    specialize (Hy Hny k'). cbn [String.length] in H1. lia. }
  assert (Hrest : forall k',
    (list_sum (map (fun kv => S (weight (snd kv))) m) + String.length k'
     <= String.length (writeMembers write m k'))%nat).
  { clear Hx Hnx. induction Hm as [|[key' y] m Hy Hm IHm]; intros k'; simpl; [lia|].
    simpl in Hnm. apply andb_true_iff in Hnm as [Hny Hnm].
    specialize (IHm Hnm k').
    pose proof (Hmember key' y (writeMembers write m k') Hy Hny). simpl in *. lia. }
  specialize (Hrest (String "}" k)).
  pose proof (Hmember key x (writeMembers write m (String "}" k)) Hx Hnx).
  simpl in *. lia.
Qed.

(** Reading what was written gives the value back *)
Lemma parse_stringify (v : value) :
  noNumbers v = true -> parse (stringify v) = Some v.
Proof.
intros Hn. unfold parse, stringify.
rewrite (value_reads_back v Hn).
- reflexivity.
- pose proof (value_fitsText v Hn ""). lia.
Qed.

End JsonFacts.

(** * Persistence *)

Module PersistFacts.
Import JSON Persist JsonFacts.

Lemma traverse_map {A B : Type} (f : A -> B) (g : B -> option A) (l : list A) :
  (forall x, g (f x) = Some x) -> traverse g (map f l) = Some l.
Proof.
intros H. induction l as [|x l IH]; simpl; [reflexivity|].
now rewrite H, IH.
Qed.

Lemma asStrings_written (l : list string) :
  asStrings (Some (JArray (map JString l))) = Some l.
Proof. simpl. now apply traverse_map. Qed.

Lemma taskOfJson_written (t : Task.t) : taskOfJson (jsonOfTask t) = Some t.
Proof.
destruct t as [i ti de du co pr la cr].
unfold taskOfJson, jsonOfTask. cbn [Task.id Task.title Task.description Task.dueDate
  Task.completed Task.priority Task.labelIds Task.createdAt].
change (prop "labelIds" _) with (Some (JArray (map JString la))).
rewrite asStrings_written.
destruct pr; reflexivity.
Qed.

Lemma labelOfJson_written (l : Label.t) : labelOfJson (jsonOfLabel l) = Some l.
Proof. destruct l; reflexivity. Qed.

Lemma tasksOfJson_written (ts : list Task.t) : tasksOfJson (jsonOfTasks ts) = Some ts.
Proof. simpl. apply traverse_map, taskOfJson_written. Qed.

Lemma labelsOfJson_written (ls : list Label.t) : labelsOfJson (jsonOfLabels ls) = Some ls.
Proof. simpl. apply traverse_map, labelOfJson_written. Qed.

Lemma noNumbers_strings (l : list string) : forallb noNumbers (map JString l) = true.
Proof. induction l; simpl; auto. Qed.

Lemma noNumbers_tasks (ts : list Task.t) : noNumbers (jsonOfTasks ts) = true.
Proof.
simpl. induction ts as [|t ts IH]; simpl; [reflexivity|].
now rewrite noNumbers_strings, IH.
Qed.

Lemma noNumbers_labels (ls : list Label.t) : noNumbers (jsonOfLabels ls) = true.
Proof. simpl. induction ls as [|l ls IH]; simpl; auto. Qed.

(** The empty entry, which the program does not hand to the parser, would
    not parse either *)
Lemma parse_empty : parse "" = None.
Proof. reflexivity. Qed.

Lemma initialState_cases (key : string) (initial : value) (store : Storage) :
  initialState key initial store
  = match getItem key store with
    | None => initial
    | Some saved =>
        match parse saved with
        | Some v => v
        | None => initial
        end
    end.
Proof.
unfold initialState, tryCatch.
destruct (getItem key store) as [[|c saved]|]; reflexivity.
Qed.

Lemma getItem_setItem (k v : string) (store : Storage) :
  getItem k (setItem k v store) = Some v.
Proof. unfold getItem, setItem. now rewrite String.eqb_refl. Qed.

(** C6: the text written for a task list reads back as that list, and so
    for a label list; a start of the program after the effects have run
    finds the lists it wrote. *)
Theorem persistence_roundtrip
  (tasks seedTasks : list Task.t) (labels seedLabels : list Label.t) (store : Storage) :
  readTasks (writeTasks tasks) = Some tasks
  /\ readLabels (writeLabels labels) = Some labels
  /\ initialTasks seedTasks (persistTasks tasks store) = jsonOfTasks tasks
  /\ initialLabels seedLabels (persistLabels labels store) = jsonOfLabels labels.
Proof.
assert (Ht : parse (writeTasks tasks) = Some (jsonOfTasks tasks))
  by apply parse_stringify, noNumbers_tasks.
assert (Hl : parse (writeLabels labels) = Some (jsonOfLabels labels))
  by apply parse_stringify, noNumbers_labels.
repeat split.
- unfold readTasks. rewrite Ht. apply tasksOfJson_written.
- unfold readLabels. rewrite Hl. apply labelsOfJson_written.
- unfold initialTasks, persistTasks.
  now rewrite initialState_cases, getItem_setItem, Ht.
- unfold initialLabels, persistLabels.
  now rewrite initialState_cases, getItem_setItem, Hl.
Qed.




(** An entry that does not parse gives the seed; one that parses is used
    as it is, list or not *)
Example unparsable_entry (seed : list Task.t) :
  initialTasks seed (setItem tasksKey "[{oops" emptyStorage) = jsonOfTasks seed.
Proof. reflexivity. Qed.

Example entry_not_a_list (seed : list Task.t) :
  initialTasks seed (setItem tasksKey " null " emptyStorage) = JNull.
Proof. reflexivity. Qed.

Example escape_above_ff (seed : list Task.t) :
  initialTasks seed
    (setItem tasksKey
       ("[" ++ String quoteChar "\u20ac \ud83d\ude00" ++ String quoteChar "]")
       emptyStorage)
  = JArray [JString "€ 😀"].
Proof. reflexivity. Qed.

Example sample_tasks_read_back :
  readTasks (writeTasks Sample.datedTasks) = Some Sample.datedTasks.
Proof. vm_compute. reflexivity. Qed.

End PersistFacts.

(** * More about the view model *)

Module ViewModelMore.
Import JsString JsStringFacts SortFacts ViewModelFacts.

Lemma string_app_assoc (a b c : string) : (a ++ b) ++ c = a ++ (b ++ c).
Proof. induction a as [|x a IH]; simpl; [reflexivity | now rewrite IH]. Qed.

Lemma includes_shorter (s q q' : string) :
  includes s (q ++ q') = true -> includes s q = true.
Proof.
rewrite !includes_iff. intros [pre [post H]].
exists pre, (q' ++ post). now rewrite H, string_app_assoc.
Qed.

Lemma filter_length_perm {A : Type} (p : A -> bool) (l l' : list A) :
  Permutation l l' -> List.length (filter p l) = List.length (filter p l').
Proof.
induction 1 as [|x l l' _ IH|x y l|l l' l'' _ IH1 _ IH2]; simpl.
- reflexivity.
- destruct (p x); simpl; now rewrite IH.
- destruct (p x), (p y); reflexivity.
- now rewrite IH1.
Qed.

Section WithEnv.
Context {E : Engine} {D : DateEnv}.

Lemma keep_empty_query (r : TimeRange) (t : Task.t) : keep "" r t = inRange r t.
Proof.
unfold keep, matchesSearch. cbv zeta.
rewrite toLowerCase_empty. now rewrite includes_empty.
Qed.

Lemma matchesSearch_shorter (q q' : string) (t : Task.t) :
  isAscii (q ++ q') = true ->
  isAscii (Task.title t) = true -> isAscii (Task.description t) = true ->
  matchesSearch (q ++ q') t = true -> matchesSearch q t = true.
Proof.
intros Hq Ht Hd. pose proof Hq as Hq'.
rewrite isAscii_app in Hq'. apply andb_true_iff in Hq' as [Hq1 _].
unfold matchesSearch. cbv zeta.
rewrite !orElse_empty, !toLowerCase_ascii by assumption.
rewrite asciiLower_app, !orb_true_iff.
intros [H|H]; [left | right]; eapply includes_shorter; exact H.
Qed.



(** X2: on text of ASCII a longer query narrows the result: when the
    titles, the descriptions and the longer query are text of ASCII, every
    task shown for a query followed by more characters is shown for the
    query itself. *)
Theorem filteredTasks_narrows (tasks : list Task.t) (q q' : string) (r : TimeRange) :
  Spec.asciiText tasks (q ++ q') ->
  incl (filteredTasks tasks (q ++ q') r) (filteredTasks tasks q r).
Proof.
intros [Hq Hts] t Ht.
apply (Permutation_in _ (filteredTasks_perm tasks (q ++ q') r)) in Ht.
apply (Permutation_in _ (Permutation_sym (filteredTasks_perm tasks q r))).
apply filter_In in Ht as [Hin Hk]. apply filter_In. split; [exact Hin|].
destruct (Hts t Hin) as [Ht Hd].
unfold keep in *.
destruct (matchesSearch (q ++ q') t) eqn:Em; [|discriminate].
now rewrite (matchesSearch_shorter q q' t Hq Ht Hd Em).
Qed.

(** X4: each sidebar count is the number of tasks not completed in the
    list that range shows when nothing is searched for. *)
Theorem stats_match_lists (tasks : list Task.t) :
  stats tasks
  = {| stats_past := Spec.count Props.isOpen (filteredTasks tasks "" past);
       stats_today := Spec.count Props.isOpen (filteredTasks tasks "" today);
       stats_tomorrow := Spec.count Props.isOpen (filteredTasks tasks "" tomorrow);
       stats_upcoming := Spec.count Props.isOpen (filteredTasks tasks "" upcoming) |}.
Proof.
assert (H : forall r,
  Spec.count Props.isOpen (filteredTasks tasks "" r)
  = List.length (filter (fun t => inRange r t && negb (Task.completed t)) tasks)).
{ intros r. unfold Spec.count.
  rewrite (filter_length_perm _ _ _ (filteredTasks_perm tasks "" r)).
  f_equal. induction tasks as [|t ts IH]; simpl; [reflexivity|].
  rewrite keep_empty_query.
  destruct (inRange r t); simpl; [|exact IH].
  unfold Props.isOpen at 1. destruct (negb (Task.completed t)); simpl; now rewrite IH. }
unfold stats. now rewrite !H.
Qed.

(** X5: when no due date is claimed by two of the date helpers, the four
    counts add up to the number of tasks not completed. *)
Theorem stats_add_up (tasks : list Task.t) :
  Props.exclusiveHelpers ->
  (stats_past (stats tasks) + stats_today (stats tasks)
   + stats_tomorrow (stats tasks) + stats_upcoming (stats tasks))%nat
  = Spec.count Props.isOpen tasks.
Proof.
intros Hex. unfold Spec.count, Props.isOpen. simpl.
induction tasks as [|t ts IH]; simpl; [reflexivity|].
destruct (Hex (Task.dueDate t)) as [Hp Ht].
destruct (negb (Task.completed t)); rewrite ?andb_false_r; simpl; [|exact IH].
destruct (isPast (Task.dueDate t)) eqn:E1.
- destruct (Hp eq_refl) as [-> ->]. simpl. lia.
- destruct (isToday (Task.dueDate t)) eqn:E2.
  + rewrite (Ht eq_refl). simpl. lia.
  + destruct (isTomorrow (Task.dueDate t)); simpl; lia.
Qed.

Lemma keep_everything (tasks : list Task.t) : filter (keep "" all) tasks = tasks.
Proof.
rewrite (filter_ext (keep "" all) (fun _ => true)).
- apply filter_true.
- intros t. apply keep_empty_query.
Qed.

(** X6: with nothing searched for and the range ['all'], which is what
    the notes item selects, the list shown holds every task once. *)
Theorem filteredTasks_all (tasks : list Task.t) :
  Permutation (filteredTasks tasks "" all) tasks.
Proof.
eapply perm_trans; [apply filteredTasks_perm|].
rewrite keep_everything. apply Permutation_refl.
Qed.

End WithEnv.

Lemma dateEnvAt_exclusive (now : Z) : Props.exclusiveHelpers (D := dateEnvAt now).
Proof.
intros d. simpl.
unfold DateUtils.isPast, DateUtils.isToday, DateUtils.isTomorrow.
destruct (JsDate.calendarDay d) as [n|]; [|split; discriminate].
split.
- intros H. apply Z.ltb_lt in H. split; apply Z.eqb_neq; lia.
- intros H. apply Z.eqb_eq in H. apply Z.eqb_neq. lia.
Qed.


Lemma filteredTasks_narrows_witness :
  let E := sampleEngine in
  let D := dateEnvAt Sample.jan1 in
  Spec.asciiText Sample.datedTasks ("Ta" ++ "sk")
  /\ incl (filteredTasks Sample.datedTasks ("Ta" ++ "sk") all)
          (filteredTasks Sample.datedTasks "Ta" all).
Proof.
intros E D.
assert (H : Spec.asciiText Sample.datedTasks ("Ta" ++ "sk")).
{ split; [reflexivity|].
  intros t Ht. destruct Ht as [<-|[<-|[<-|[]]]]; split; reflexivity. }
split; [exact H|].
exact (filteredTasks_narrows Sample.datedTasks "Ta" "sk" all H).
Defined.

Lemma stats_add_up_witness :
  let D := dateEnvAt Sample.jan1 in
  Props.exclusiveHelpers
  /\ (stats_past (stats Sample.withUndated) + stats_today (stats Sample.withUndated)
      + stats_tomorrow (stats Sample.withUndated)
      + stats_upcoming (stats Sample.withUndated))%nat
     = Spec.count Props.isOpen Sample.withUndated.
Proof.
intros D. split.
- apply dateEnvAt_exclusive.
- apply (stats_add_up Sample.withUndated), dateEnvAt_exclusive.
Defined.

End ViewModelMore.

(** * More about the state updaters *)

Module UpdaterMore.
Import AppFacts Props.

Lemma state_eta (st : App.State) :
  App.mkState (App.tasks st) (App.labels st) (App.viewType st) (App.activeRange st)
              (App.isTaskModalOpen st) (App.isLabelManagerOpen st) (App.editingTask st)
              (App.searchQuery st) (App.mobileMenuOpen st) = st.
Proof. now destruct st. Qed.

Lemma setTasks_same (f : list Task.t -> list Task.t) (st : App.State) :
  f (App.tasks st) = App.tasks st -> App.setTasks f st = st.
Proof. intros H. unfold App.setTasks. rewrite H. apply state_eta. Qed.

Lemma setLabels_same (ls : list Label.t) (st : App.State) :
  ls = App.labels st -> App.setLabels ls st = st.
Proof. intros ->. apply state_eta. Qed.

Lemma spread_twice (t : Task.t) (u : Task.partial) :
  Task.spread (Task.spread t u) u = Task.spread t u.
Proof.
destruct u as [[?|] [?|] [?|] [?|] [?|] [?|] [?|] [?|]]; reflexivity.
Qed.

Lemma filter_absent (id : string) (ts : list Task.t) :
  ~ In id (map Task.id ts) ->
  filter (fun t => negb (String.eqb (Task.id t) id)) ts = ts.
Proof.
intros H. induction ts as [|t ts IH]; simpl; [reflexivity|].
simpl in H. destruct (String.eqb_spec (Task.id t) id) as [He|Hne]; simpl.
- elim H. now left.
- f_equal. apply IH. tauto.
Qed.

Lemma filter_ids_NoDup (p : Task.t -> bool) (ts : list Task.t) :
  NoDup (map Task.id ts) -> NoDup (map Task.id (filter p ts)).
Proof.
induction ts as [|t ts IH]; simpl; intros H; [constructor|].
apply NoDup_cons_iff in H as [Hn Hd].
destruct (p t); simpl; [|now apply IH].
constructor; [|now apply IH].
rewrite in_map_iff in *. intros [x [Hx Hin]]. apply Hn.
exists x. split; [exact Hx|]. now apply filter_In in Hin.
Qed.

Lemma filter_present_length (id : string) (ts : list Task.t) :
  NoDup (map Task.id ts) -> In id (map Task.id ts) ->
  S (List.length (filter (fun t => negb (String.eqb (Task.id t) id)) ts))
  = List.length ts.
Proof.
induction ts as [|t ts IH]; simpl; intros Hd Hin; [contradiction|].
apply NoDup_cons_iff in Hd as [Hn Hd].
destruct (String.eqb_spec (Task.id t) id) as [He|Hne]; simpl.
- rewrite filter_absent; [reflexivity | congruence].
- f_equal. apply IH; [exact Hd|]. destruct Hin; [contradiction | assumption].
Qed.

(** X7: a confirmed deletion removes the tasks of the identifier and no
    other task, and leaves the labels; a refused one changes nothing. *)
Theorem deleteTask_removes (id : string) (st : App.State) :
  App.deleteTask false id st = st
  /\ (forall t, In t (App.tasks (App.deleteTask true id st))
                <-> In t (App.tasks st) /\ Task.id t <> id)
  /\ App.labels (App.deleteTask true id st) = App.labels st.
Proof.
split; [reflexivity|]. split; [|reflexivity].
intros t. simpl. rewrite filter_In, negb_true_iff, String.eqb_neq. tauto.
Qed.

(** X8: when the task identifiers are unique and one task has the
    identifier, a confirmed deletion takes exactly one task away and the
    identifiers stay unique. *)
Theorem deleteTask_exactly_one (id : string) (st : App.State) :
  Spec.uniqueTaskIds (App.tasks st) ->
  In id (map Task.id (App.tasks st)) ->
  S (List.length (App.tasks (App.deleteTask true id st))) = List.length (App.tasks st)
  /\ Spec.uniqueTaskIds (App.tasks (App.deleteTask true id st)).
Proof.
unfold Spec.uniqueTaskIds. intros Hd Hin. simpl. split.
- now apply filter_present_length.
- now apply filter_ids_NoDup.
Qed.

Lemma deleteTask_exactly_one_witness :
  Spec.uniqueTaskIds (App.tasks Sample.state)
  /\ In "abcdefghi" (map Task.id (App.tasks Sample.state))
  /\ S (List.length (App.tasks (App.deleteTask true "abcdefghi" Sample.state)))
     = List.length (App.tasks Sample.state)
  /\ Spec.uniqueTaskIds (App.tasks (App.deleteTask true "abcdefghi" Sample.state)).
Proof.
assert (H1 : Spec.uniqueTaskIds (App.tasks Sample.state)).
{ repeat constructor. simpl. tauto. }
assert (H2 : In "abcdefghi" (map Task.id (App.tasks Sample.state))).
{ simpl. now left. }
split; [exact H1|]. split; [exact H2|].
exact (deleteTask_exactly_one "abcdefghi" Sample.state H1 H2).
Defined.

(** X9: deleting twice is deleting once, for a task and for a label. *)
Theorem delete_twice (id : string) (st : App.State) :
  App.deleteTask true id (App.deleteTask true id st) = App.deleteTask true id st
  /\ App.deleteLabel id (App.deleteLabel id st) = App.deleteLabel id st.
Proof.
split.
- apply setTasks_same. simpl.
  apply forallb_filter_id, forallb_filter.
- apply setLabels_same. simpl.
  apply forallb_filter_id, forallb_filter.
Qed.

(** X10: applying the same update a second time changes nothing more. *)
Theorem updateTask_twice (id : string) (updates : Task.partial) (st : App.State) :
  App.updateTask id updates (App.updateTask id updates st)
  = App.updateTask id updates st.
Proof.
apply setTasks_same. simpl. unfold App.updateList.
rewrite map_map. apply map_ext. intros t.
destruct (String.eqb (Task.id t) id) eqn:E.
- destruct (String.eqb (Task.id (Task.spread t updates)) id);
    [apply spread_twice | reflexivity].
- now rewrite E.
Qed.

Lemma find_updateList (id : string) (b : bool) (ts : list Task.t) :
  find (fun t => String.eqb (Task.id t) id) (App.updateList id (setCompleted b) ts)
  = option_map (fun t => Task.spread t (setCompleted b))
               (find (fun t => String.eqb (Task.id t) id) ts).
Proof.
induction ts as [|t ts IH]; simpl; [reflexivity|].
destruct (String.eqb (Task.id t) id) eqn:E; simpl; rewrite E;
  [reflexivity | exact IH].
Qed.

Lemma restore_completed (id : string) (b : bool) (t : Task.t) (ts : list Task.t) :
  NoDup (map Task.id ts) ->
  find (fun x => String.eqb (Task.id x) id) ts = Some t ->
  App.updateList id (setCompleted (Task.completed t))
    (App.updateList id (setCompleted b) ts) = ts.
Proof.
induction ts as [|x ts IH]; simpl; intros Hd Hf; [discriminate|].
apply NoDup_cons_iff in Hd as [Hn Hd].
destruct (String.eqb_spec (Task.id x) id) as [He|Hne].
- injection Hf as <-. simpl.
  destruct (String.eqb_spec (Task.id x) id) as [_|Hne]; [|contradiction].
  f_equal; [now destruct x|].
  assert (Ha : forall y, In y ts -> Task.id y <> id).
  { intros y Hy Hid. apply Hn. rewrite He, <- Hid. now apply in_map. }
  now rewrite (updateList_absent id (setCompleted b) ts Ha),
              (updateList_absent id _ ts Ha).
- destruct (String.eqb_spec (Task.id x) id) as [He|_]; [contradiction|].
  f_equal. now apply IH.
Qed.

(** X11: when the task identifiers are unique, toggling a task twice gives
    the state back. *)
Theorem toggleTask_twice (id : string) (st : App.State) :
  Spec.uniqueTaskIds (App.tasks st) ->
  App.toggleTask id (App.toggleTask id st) = st.
Proof.
unfold Spec.uniqueTaskIds. intros Hd.
unfold App.toggleTask at 1. unfold App.updateTask.
fold (setCompleted (App.toggled id (App.tasks (App.toggleTask id st)))).
unfold App.toggleTask, App.updateTask.
fold (setCompleted (App.toggled id (App.tasks st))).
destruct st as [ts ls v r m lm e q mm]. simpl in *.
unfold App.setTasks. simpl. f_equal.
unfold App.toggled at 1. rewrite find_updateList.
unfold App.toggled.
destruct (find (fun t => String.eqb (Task.id t) id) ts) as [t|] eqn:Hf; simpl.
- rewrite negb_involutive. exact (restore_completed id _ t ts Hd Hf).
- assert (Ha : forall t, In t ts -> Task.id t <> id).
  { intros t Ht. apply (find_none _ _ Hf) in Ht. now apply String.eqb_neq. }
  now rewrite (updateList_absent id _ ts Ha), (updateList_absent id _ ts Ha).
Qed.

Lemma toggleTask_twice_witness :
  Spec.uniqueTaskIds (App.tasks Sample.state)
  /\ App.toggleTask "abcdefghi" (App.toggleTask "abcdefghi" Sample.state) = Sample.state.
Proof.
assert (H1 : Spec.uniqueTaskIds (App.tasks Sample.state)).
{ repeat constructor. simpl. tauto. }
split; [exact H1|].
exact (toggleTask_twice "abcdefghi" Sample.state H1).
Defined.

Lemma orElse_nonempty (x d : string) : d <> "" -> JsString.orElse x d <> "".
Proof. intros Hd. destruct x; simpl; [exact Hd | discriminate]. Qed.

Lemma optOrElse_nonempty (x : option string) (d : string) :
  d <> "" -> JsString.optOrElse x d <> "".
Proof. intros Hd. destruct x; simpl; [now apply orElse_nonempty | exact Hd]. Qed.

(** X12: when nothing is being edited, [saveTask] puts one new task in
    front of the others, which stay as they are; the new task is not
    completed and, the local date string being non-empty, has a non-empty
    due date; the modal is closed. *)
Theorem saveTask_creates (env : Env) (taskData : Task.partial) (st : App.State) :
  App.editingTask st = None ->
  localDateString env <> "" ->
  exists t,
    App.tasks (App.saveTask env taskData st) = t :: App.tasks st
    /\ Task.completed t = false
    /\ Task.dueDate t <> ""
    /\ App.isTaskModalOpen (App.saveTask env taskData st) = false
    /\ App.editingTask (App.saveTask env taskData st) = None.
Proof.
intros He Hd. unfold App.saveTask. rewrite He.
exists (App.newTask env taskData). simpl.
repeat split. now apply optOrElse_nonempty.
Qed.

Lemma saveTask_creates_witness :
  App.editingTask Sample.state = None
  /\ localDateString Sample.envFresh <> ""
  /\ exists t,
       App.tasks (App.saveTask Sample.envFresh (Sample.titled "new") Sample.state)
       = t :: App.tasks Sample.state
       /\ Task.completed t = false
       /\ Task.dueDate t <> ""
       /\ App.isTaskModalOpen
            (App.saveTask Sample.envFresh (Sample.titled "new") Sample.state) = false
       /\ App.editingTask
            (App.saveTask Sample.envFresh (Sample.titled "new") Sample.state) = None.
Proof.
assert (H1 : App.editingTask Sample.state = None) by reflexivity.
assert (H2 : localDateString Sample.envFresh <> "") by discriminate.
split; [exact H1|]. split; [exact H2|].
exact (saveTask_creates Sample.envFresh (Sample.titled "new") Sample.state H1 H2).
Defined.

(** X13: a task created under an identifier no task has yet is the only
    one a deletion of that identifier removes: the task list is the one
    before the creation. *)
Theorem create_then_delete (env : Env) (taskData : Task.partial) (st : App.State) :
  App.editingTask st = None ->
  ~ In (App.generatedTaskId env) (map Task.id (App.tasks st)) ->
  App.tasks (App.deleteTask true (App.generatedTaskId env) (App.saveTask env taskData st))
  = App.tasks st.
Proof.
intros He Hf. unfold App.saveTask. rewrite He. simpl.
rewrite String.eqb_refl. simpl. now apply filter_absent.
Qed.

Lemma create_then_delete_witness :
  App.editingTask Sample.state = None
  /\ ~ In (App.generatedTaskId Sample.envFresh) (map Task.id (App.tasks Sample.state))
  /\ App.tasks (App.deleteTask true (App.generatedTaskId Sample.envFresh)
                  (App.saveTask Sample.envFresh (Sample.titled "new") Sample.state))
     = App.tasks Sample.state.
Proof.
assert (H1 : App.editingTask Sample.state = None) by reflexivity.
assert (H2 : ~ In (App.generatedTaskId Sample.envFresh)
                  (map Task.id (App.tasks Sample.state))).
{ vm_compute. intros [H|[]]. discriminate H. }
split; [exact H1|]. split; [exact H2|].
exact (create_then_delete Sample.envFresh (Sample.titled "new") Sample.state H1 H2).
Defined.

Lemma filter_labels_absent (id : string) (ls : list Label.t) :
  ~ In id (map Label.id ls) ->
  filter (fun l => negb (String.eqb (Label.id l) id)) ls = ls.
Proof.
intros H. induction ls as [|l ls IH]; simpl; [reflexivity|].
simpl in H. destruct (String.eqb_spec (Label.id l) id) as [He|Hne]; simpl.
- elim H. now left.
- f_equal. apply IH. tauto.
Qed.

(** X14: a label added under an identifier no label has yet is the only
    one a deletion of that identifier removes: the state is the one before
    the addition. *)
Theorem addLabel_then_delete (env : Env) (n c : string) (st : App.State) :
  ~ In (App.generatedLabelId env) (map Label.id (App.labels st)) ->
  App.deleteLabel (App.generatedLabelId env) (App.addLabel env n c st) = st.
Proof.
intros Hf. destruct st as [ts ls v r m lm e q mm]. simpl in Hf.
unfold App.deleteLabel, App.addLabel, App.setLabels. simpl. f_equal.
rewrite filter_app. simpl. rewrite String.eqb_refl. simpl.
now rewrite app_nil_r, filter_labels_absent.
Qed.

Lemma addLabel_then_delete_witness :
  ~ In (App.generatedLabelId Sample.envFresh) (map Label.id (App.labels Sample.state))
  /\ App.deleteLabel (App.generatedLabelId Sample.envFresh)
       (App.addLabel Sample.envFresh "Home" "#10b981" Sample.state) = Sample.state.
Proof.
assert (H : ~ In (App.generatedLabelId Sample.envFresh)
                 (map Label.id (App.labels Sample.state))).
{ vm_compute. intros [H|[]]. discriminate H. }
split; [exact H|].
exact (addLabel_then_delete Sample.envFresh "Home" "#10b981" Sample.state H).
Defined.

(** X15: deleting a label keeps the label identifiers unique, and so does
    a confirmed or refused deletion of a task for the task identifiers. *)
Theorem deletions_keep_ids_unique (confirmed : bool) (id : string) (st : App.State) :
  Spec.uniqueTaskIds (App.tasks st) ->
  Spec.uniqueLabelIds (App.labels st) ->
  Spec.uniqueTaskIds (App.tasks (App.deleteTask confirmed id st))
  /\ Spec.uniqueLabelIds (App.labels (App.deleteLabel id st)).
Proof.
unfold Spec.uniqueTaskIds, Spec.uniqueLabelIds. intros Ht Hl. split.
- destruct confirmed; simpl; [now apply filter_ids_NoDup | exact Ht].
- simpl. revert Hl. generalize (App.labels st) as ls.
  induction ls as [|l ls IH]; simpl; intros H; [constructor|].
  apply NoDup_cons_iff in H as [Hn Hd].
  destruct (negb (String.eqb (Label.id l) id)); simpl; [|now apply IH].
  constructor; [|now apply IH].
  rewrite in_map_iff in *. intros [x [Hx Hin]]. apply Hn.
  exists x. split; [exact Hx|]. now apply filter_In in Hin.
Qed.

Lemma deletions_keep_ids_unique_witness :
  Spec.uniqueTaskIds (App.tasks Sample.state)
  /\ Spec.uniqueLabelIds (App.labels Sample.state)
  /\ Spec.uniqueTaskIds (App.tasks (App.deleteTask true "abcdefghi" Sample.state))
  /\ Spec.uniqueLabelIds (App.labels (App.deleteLabel "l-1" Sample.state)).
Proof.
assert (H1 : Spec.uniqueTaskIds (App.tasks Sample.state)).
{ repeat constructor. simpl. tauto. }
assert (H2 : Spec.uniqueLabelIds (App.labels Sample.state)).
{ repeat constructor. simpl. tauto. }
split; [exact H1|]. split; [exact H2|].
split.
- exact (proj1 (deletions_keep_ids_unique true "abcdefghi" Sample.state H1 H2)).
- exact (proj2 (deletions_keep_ids_unique true "l-1" Sample.state H1 H2)).
Defined.

Section WithEnv.
Context {E : Engine} {D : DateEnv}.

(** X16: when nothing is being edited and no due date is given, the task
    [saveTask] creates is due on the local date: if the date helper takes
    that date for today, the count of today goes up by one and the task is
    in the list of today. *)
Theorem created_task_is_due_today (env : Env) (taskData : Task.partial) (st : App.State) :
  App.editingTask st = None ->
  Task.p_dueDate taskData = None ->
  isToday (localDateString env) = true ->
  stats_today (stats (App.tasks (App.saveTask env taskData st)))
  = S (stats_today (stats (App.tasks st)))
  /\ In (App.newTask env taskData)
        (filteredTasks (App.tasks (App.saveTask env taskData st)) "" today).
Proof.
intros He Hd Ht.
assert (Hts : App.tasks (App.saveTask env taskData st)
              = App.newTask env taskData :: App.tasks st).
{ unfold App.saveTask. now rewrite He. }
assert (Hdue : Task.dueDate (App.newTask env taskData) = localDateString env).
{ simpl. now rewrite Hd. }
rewrite Hts. split.
- cbn -[App.newTask]. rewrite Hdue, Ht.
  change (Task.completed (App.newTask env taskData)) with false. reflexivity.
- eapply Permutation_in;
    [apply Permutation_sym, ViewModelFacts.filteredTasks_perm|].
  apply filter_In. split; [now left|].
  rewrite ViewModelMore.keep_empty_query. cbn [inRange]. now rewrite Hdue.
Qed.

End WithEnv.

Lemma created_task_is_due_today_witness :
  let E := sampleEngine in
  let D := dateEnvAt Sample.jan1 in
  App.editingTask Sample.state = None
  /\ Task.p_dueDate (Sample.titled "new") = None
  /\ isToday (localDateString Sample.envFresh) = true
  /\ stats_today
       (stats (App.tasks (App.saveTask Sample.envFresh (Sample.titled "new") Sample.state)))
     = S (stats_today (stats (App.tasks Sample.state)))
  /\ In (App.newTask Sample.envFresh (Sample.titled "new"))
        (filteredTasks
           (App.tasks (App.saveTask Sample.envFresh (Sample.titled "new") Sample.state))
           "" today).
Proof.
intros E D.
assert (H1 : App.editingTask Sample.state = None) by reflexivity.
assert (H2 : Task.p_dueDate (Sample.titled "new") = None) by reflexivity.
assert (H3 : isToday (localDateString Sample.envFresh) = true) by reflexivity.
split; [exact H1|]. split; [exact H2|]. split; [exact H3|].
exact (created_task_is_due_today Sample.envFresh (Sample.titled "new")
         Sample.state H1 H2 H3).
Defined.

End UpdaterMore.

(** * The component as a state machine *)

Module NavFacts.
Import App Nav.

Lemma run_reachable (evs : list Event) (st : State) :
  reachable st -> reachable (run evs st).
Proof.
revert st. induction evs as [|ev evs IH]; intros st H; simpl; [exact H|].
apply IH. now constructor.
Qed.

Lemma handle_searchQuery (ev : Event) (st : State) :
  searchQuery (handle ev st) = searchQuery st.
Proof.
destruct ev; try reflexivity.
- simpl. now destruct confirmed.
- simpl. unfold saveTask. now destruct (editingTask st).
Qed.

Lemma reachable_searchQuery (st : State) : reachable st -> searchQuery st = "".
Proof.
induction 1 as [ts ls|ev st _ IH]; [reflexivity|].
now rewrite handle_searchQuery.
Qed.

Lemma reachable_closed_modal (st : State) :
  reachable st -> isTaskModalOpen st = false -> editingTask st = None.
Proof.
induction 1 as [ts ls|ev st _ IH]; [reflexivity|].
destruct ev; simpl; try exact IH; try discriminate; try reflexivity.
- now destruct confirmed.
Qed.

Lemma reachable_notes_all (st : State) :
  reachable st -> viewType st = notes_view -> activeRange st = all.
Proof.
induction 1 as [ts ls|ev st _ IH]; [discriminate|].
destruct ev; simpl; try exact IH; try discriminate; try reflexivity.
- now destruct confirmed.
- unfold saveTask. now destruct (editingTask st).
Qed.

Section WithEnv.
Context {E : Engine} {D : DateEnv}.

Lemma content_empty (st : State) :
  content st = EmptyState
  <-> viewType st = list_view
      /\ forall t, In t (tasks st) ->
           keep (searchQuery st) (activeRange st) t = false.
Proof.
unfold content.
pose proof (ViewModelFacts.filteredTasks_perm (tasks st) (searchQuery st) (activeRange st))
  as HP.
destruct (viewType st); try (split; [discriminate | intros [Hv _]; discriminate]).
destruct (filteredTasks (tasks st) (searchQuery st) (activeRange st)) as [|x l] eqn:Ef;
  simpl.
- split; [|reflexivity]. intros _. split; [reflexivity|].
  intros t Ht.
  destruct (keep (searchQuery st) (activeRange st) t) eqn:Hk; [|reflexivity].
  exfalso. apply (Permutation_in t (Permutation_sym HP)). apply filter_In. now split.
- split; [discriminate|]. intros [_ Hno].
  assert (Hx : In x (filter (keep (searchQuery st) (activeRange st)) (tasks st))).
  { apply (Permutation_in x HP). now left. }
  apply filter_In in Hx as [Hin Hk]. rewrite (Hno x Hin) in Hk. discriminate.
Qed.

(** X17: no handler of the component sets the search query: in every
    state it can reach the query is empty, and the list shown is the sorted
    list of the tasks of the active range. *)
Theorem search_never_set (st : State) :
  reachable st ->
  searchQuery st = ""
  /\ filteredTasks (tasks st) (searchQuery st) (activeRange st)
     = sort compareTasks (filter (inRange (activeRange st)) (tasks st)).
Proof.
intros H. apply reachable_searchQuery in H. split; [exact H|].
rewrite H. unfold filteredTasks. f_equal.
apply filter_ext. intros t. apply ViewModelMore.keep_empty_query.
Qed.

(** X19: the notes view is only reached with the range ['all']: whenever
    it is shown, it is handed every task once. *)
Theorem notes_show_every_task (st : State) :
  reachable st -> viewType st = notes_view ->
  exists shown, content st = NotesView shown /\ Permutation shown (tasks st).
Proof.
intros H Hv. unfold content. rewrite Hv.
rewrite (reachable_searchQuery st H), (reachable_notes_all st H Hv).
eexists. split; [reflexivity|].
eapply perm_trans; [apply ViewModelFacts.filteredTasks_perm|].
rewrite ViewModelMore.keep_everything. apply Permutation_refl.
Qed.

(** X20: the empty state is shown exactly in the list view when no task
    passes the filter of the search and the active range; when the query and
    the titles and descriptions are text of ASCII, that is: when no task
    contains the query up to the case of letters in its title or description
    and is due in the active range. *)
Theorem empty_state_iff (st : State) :
  (content st = EmptyState
   <-> viewType st = list_view
       /\ forall t, In t (tasks st) ->
            keep (searchQuery st) (activeRange st) t = false)
  /\ (Spec.asciiText (tasks st) (searchQuery st) ->
      (content st = EmptyState
       <-> viewType st = list_view
           /\ forall t, In t (tasks st) ->
                ~ Spec.selected (searchQuery st) (activeRange st) t)).
Proof.
split; [apply content_empty|].
intros [Hq Hts]. rewrite content_empty.
split; intros [Hv Hno]; (split; [exact Hv|]); intros t Ht;
  destruct (Hts t Ht) as [Ha Hd];
  pose proof (ViewModelFacts.keep_ascii (searchQuery st) (activeRange st) t Hq Ha Hd)
    as Hk.
- intros Hsel. apply Hk in Hsel. rewrite (Hno t Ht) in Hsel. discriminate.
- destruct (keep (searchQuery st) (activeRange st) t); [|reflexivity].
  elim (Hno t Ht). now apply Hk.
Qed.

(** X21: a sidebar item shows its badge exactly when some task not
    completed is in its range; the notes item never shows one. *)
Theorem badge_iff (i : Item) (st : State) :
  badge (itemCount i st) <> None
  <-> exists r t, itemRange i = Some r /\ In t (tasks st)
                  /\ inRange r t = true /\ Task.completed t = false.
Proof.
assert (Hlen : forall (p : Task.t -> bool) l,
  (if (0 <? List.length (filter p l))%nat then Some (List.length (filter p l)) else None)
  <> None <-> exists t, In t l /\ p t = true).
{ intros p l. destruct (filter p l) as [|x f] eqn:Ef; simpl.
  - split; [intros H; now elim H|]. intros [t [Ht Hp]].
    assert (Hin : In t (filter p l)) by (apply filter_In; now split).
    rewrite Ef in Hin. contradiction.
  - split; [|discriminate]. intros _. exists x.
    apply filter_In. rewrite Ef. now left. }
destruct i; simpl.
1-4: rewrite Hlen; split;
  [ intros [t [Ht Hp]]; apply andb_true_iff in Hp as [Hr Hc];
    apply negb_true_iff in Hc; eexists; exists t; repeat split; eauto
  | intros [r [t [Hr [Ht [Hin Hc]]]]]; injection Hr as <-; exists t; split; [exact Ht|];
    apply andb_true_iff; split; [exact Hin | now apply negb_true_iff] ].
split; [intros H; now elim H | intros [r [t [Hr _]]]; discriminate].
Qed.

End WithEnv.

(** X18: in every state the component can reach, a closed task modal
    means that no task is being edited; so the new-task button followed by
    a save adds a task to the list. *)
Theorem new_task_button_creates (env : Env) (taskData : Task.partial) (st : State) :
  reachable st -> isTaskModalOpen st = false ->
  editingTask st = None
  /\ List.length (tasks (handle (SaveTask env taskData) (handle NewTask st)))
     = S (List.length (tasks st)).
Proof.
intros H Hm. pose proof (reachable_closed_modal st H Hm) as He.
split; [exact He|]. simpl. unfold saveTask. simpl. now rewrite He.
Qed.

Lemma afterWalk_reachable : reachable Scenario.afterWalk.
Proof. unfold Scenario.afterWalk. apply run_reachable. constructor. Qed.

Lemma search_never_set_witness :
  let E := sampleEngine in
  let D := dateEnvAt Sample.jan1 in
  reachable Scenario.afterWalk
  /\ searchQuery Scenario.afterWalk = ""
  /\ filteredTasks (tasks Scenario.afterWalk) (searchQuery Scenario.afterWalk)
       (activeRange Scenario.afterWalk)
     = sort compareTasks
         (filter (inRange (activeRange Scenario.afterWalk)) (tasks Scenario.afterWalk)).
Proof.
intros E D. split; [exact afterWalk_reachable|].
exact (search_never_set Scenario.afterWalk afterWalk_reachable).
Defined.

Lemma notes_show_every_task_witness :
  let E := sampleEngine in
  let D := dateEnvAt Sample.jan1 in
  reachable Scenario.afterWalk
  /\ viewType Scenario.afterWalk = notes_view
  /\ exists shown, content Scenario.afterWalk = NotesView shown
                   /\ Permutation shown (tasks Scenario.afterWalk).
Proof.
intros E D. split; [exact afterWalk_reachable|]. split; [reflexivity|].
exact (notes_show_every_task Scenario.afterWalk afterWalk_reachable eq_refl).
Defined.

Lemma empty_state_iff_witness :
  let E := sampleEngine in
  let D := dateEnvAt Sample.jan1 in
  let st := Sample.searching in
  Spec.asciiText (tasks st) (searchQuery st)
  /\ (content st = EmptyState
      <-> viewType st = list_view
          /\ forall t, In t (tasks st) ->
               ~ Spec.selected (searchQuery st) (activeRange st) t).
Proof.
intros E D st.
assert (H : Spec.asciiText (tasks st) (searchQuery st)).
{ split; [reflexivity|].
  intros t Ht. destruct Ht as [<-|[<-|[<-|[]]]]; split; reflexivity. }
split; [exact H|].
exact (proj2 (empty_state_iff st) H).
Defined.

Lemma new_task_button_creates_witness :
  reachable Scenario.afterWalk
  /\ isTaskModalOpen Scenario.afterWalk = false
  /\ editingTask Scenario.afterWalk = None
  /\ List.length
       (tasks (handle (SaveTask Sample.envRepeating (Sample.titled "more"))
                 (handle NewTask Scenario.afterWalk)))
     = S (List.length (tasks Scenario.afterWalk)).
Proof.
split; [exact afterWalk_reachable|]. split; [reflexivity|].
exact (new_task_button_creates Sample.envRepeating (Sample.titled "more")
         Scenario.afterWalk afterWalk_reachable eq_refl).
Defined.

End NavFacts.

(** * More about persistence *)

Module PersistMore.
Import JSON Persist PersistFacts JsonFacts Boot.

Lemma getItem_setItem_other (k k' v : string) (store : Storage) :
  k' <> k -> getItem k' (setItem k v store) = getItem k' store.
Proof.
intros H. unfold getItem, setItem. apply String.eqb_neq in H. now rewrite H.
Qed.

(** X22: the effects write the two entries of the component and nothing
    else, and what they wrote before does not matter: the store after
    two rounds is the store after the last one. *)
Theorem persist_overwrites (st1 st2 : App.State) (store : Storage) :
  (forall k, k <> tasksKey -> k <> labelsKey ->
     getItem k (persist st2 store) = getItem k store)
  /\ Props.sameStore (persist st2 (persist st1 store)) (persist st2 store).
Proof.
split.
- intros k Ht Hl. unfold persist, persistLabels, persistTasks.
  now rewrite !getItem_setItem_other.
- intros k. unfold persist, persistLabels, persistTasks, getItem, setItem.
  destruct (String.eqb k labelsKey); [reflexivity|].
  destruct (String.eqb k tasksKey); reflexivity.
Qed.

(** X23: a start of the component over the store the effects wrote gives
    the first state again with the two lists as they were: the lists
    survive, the view, the range, the modal flags and the task being
    edited do not. *)
Theorem restart_keeps_lists
  (seedTasks : list Task.t) (seedLabels : list Label.t) (st : App.State) (store : Storage) :
  restart seedTasks seedLabels (persist st store)
  = Some (Nav.start (App.tasks st) (App.labels st)).
Proof.
unfold restart, persist, initialTasks, initialLabels.
rewrite !initialState_cases.
unfold persistLabels at 2. rewrite getItem_setItem.
unfold persistLabels, persistTasks.
rewrite getItem_setItem_other by discriminate. rewrite getItem_setItem.
unfold writeTasks, writeLabels.
rewrite (parse_stringify _ (noNumbers_tasks _)), (parse_stringify _ (noNumbers_labels _)).
now rewrite tasksOfJson_written, labelsOfJson_written.
Qed.

End PersistMore.

(** * Edges of the comparison and of the updaters *)

Module EdgeFacts.
Import AppFacts Props.

Section WithEnv.
Context {D : DateEnv}.

(** X24: the comparison function of the sort is antisymmetric: with its
    arguments swapped it yields the opposite number, and [NaN] again where
    it yielded [NaN]; it never yields zero for two tasks of different
    completion status. *)
Theorem compareTasks_swapped (a b : Task.t) :
  compareTasks b a = negated (compareTasks a b)
  /\ (Task.completed a <> Task.completed b -> compareTasks a b <> Some 0).
Proof.
unfold compareTasks, negated, numSub. split.
- destruct (Task.completed a), (Task.completed b); simpl; try reflexivity;
    destruct (getTime (Task.dueDate a)), (getTime (Task.dueDate b)); simpl;
    try reflexivity; f_equal; lia.
- destruct (Task.completed a), (Task.completed b); simpl; intros H;
    try discriminate; now elim H.
Qed.

End WithEnv.

(** X25: saving the edit of a task that is no longer in the list changes
    no task and adds none: the edit is dropped, and the modal is closed. *)
Theorem saveTask_of_deleted (env : Env) (taskData : Task.partial)
        (e : Task.t) (st : App.State) :
  App.editingTask st = Some e ->
  (forall t, In t (App.tasks st) -> Task.id t <> Task.id e) ->
  App.tasks (App.saveTask env taskData st) = App.tasks st
  /\ App.isTaskModalOpen (App.saveTask env taskData st) = false
  /\ App.editingTask (App.saveTask env taskData st) = None.
Proof.
intros He Ha. unfold App.saveTask. rewrite He. simpl.
now rewrite updateList_absent.
Qed.

Lemma saveTask_of_deleted_witness :
  let st := App.deleteTask true "abcdefghi" Scenario.editing in
  let e := Sample.task "abcdefghi" "2024-01-01" false in
  App.editingTask st = Some e
  /\ (forall t, In t (App.tasks st) -> Task.id t <> Task.id e)
  /\ App.tasks (App.saveTask Sample.envFresh (Sample.titled "late") st) = App.tasks st
  /\ App.isTaskModalOpen (App.saveTask Sample.envFresh (Sample.titled "late") st) = false
  /\ App.editingTask (App.saveTask Sample.envFresh (Sample.titled "late") st) = None.
Proof.
intros st e.
assert (H1 : App.editingTask st = Some e) by reflexivity.
assert (H2 : forall t, In t (App.tasks st) -> Task.id t <> Task.id e).
{ intros t Ht. vm_compute in Ht. contradiction. }
split; [exact H1|]. split; [exact H2|].
exact (saveTask_of_deleted Sample.envFresh (Sample.titled "late") e st H1 H2).
Defined.

(** X26: [toggleTask] touches the completion flags only: with every flag
    set to the same value the task list is the one before; and the task
    the identifier finds is in the list with its flag negated. *)
Theorem toggleTask_flags_only (id : string) (t : Task.t) (st : App.State) :
  find (fun x => String.eqb (Task.id x) id) (App.tasks st) = Some t ->
  map (fun x => Task.spread x (setCompleted false)) (App.tasks (App.toggleTask id st))
  = map (fun x => Task.spread x (setCompleted false)) (App.tasks st)
  /\ In (Task.spread t (setCompleted (negb (Task.completed t))))
        (App.tasks (App.toggleTask id st))
  /\ App.labels (App.toggleTask id st) = App.labels st.
Proof.
intros Hf. split; [|split; [|reflexivity]].
- simpl. unfold App.updateList. rewrite map_map. apply map_ext. intros x.
  destruct (String.eqb (Task.id x) id); reflexivity.
- now apply toggleTask_flips.
Qed.

Lemma toggleTask_flags_only_witness :
  let t := Sample.task "abcdefghi" "2024-01-01" false in
  find (fun x => String.eqb (Task.id x) "abcdefghi") (App.tasks Sample.state) = Some t
  /\ map (fun x => Task.spread x (setCompleted false))
         (App.tasks (App.toggleTask "abcdefghi" Sample.state))
     = map (fun x => Task.spread x (setCompleted false)) (App.tasks Sample.state)
  /\ In (Task.spread t (setCompleted (negb (Task.completed t))))
        (App.tasks (App.toggleTask "abcdefghi" Sample.state))
  /\ App.labels (App.toggleTask "abcdefghi" Sample.state) = App.labels Sample.state.
Proof.
intros t.
assert (H : find (fun x => String.eqb (Task.id x) "abcdefghi") (App.tasks Sample.state)
            = Some t) by reflexivity.
split; [exact H|].
exact (toggleTask_flags_only "abcdefghi" t Sample.state H).
Defined.

End EdgeFacts.
